(** * Shallow embedding of ISOLDE's dihedral manager and restraint classes

    Sources embedded:
    - [src/isolde/src/atomic_cpp/dihedral_mgr.h], [dihedral_mgr.cpp]
      ([Dihedral_Mgr<DType>]);
    - [src/unnamed/part_002] ([Dihedral::set_target]);
    - [src/isolde/src/restraints_cpp/distance_restraints.cpp]
      ([Distance_Restraint]);
    - [src/isolde/src/restraints_cpp/sim_restraint_base.h] and
      [src/unnamed/part_003] ([Position_Restraint], [Position_Restraint_Mgr]);
    - [src/isolde/src/constants.h].

    Doubles are modelled as real numbers (no NaN, no rounding).  Pointers
    are modelled as natural-number identities.  A [std::unordered_map] is
    an association list (its iteration order is one arbitrary order). *)

From Stdlib Require Import List Bool Arith Lia String ZArith.
From Stdlib Require Import Reals Lra Permutation.
Import ListNotations.

(* ------------------------------------------------------------------ *)
(** ** Association lists standing for [std::unordered_map] *)

Section Alist.
Variables K V : Type.
Variable K_eq_dec : forall x y : K, {x = y} + {x <> y}.

(** [map.find(k)] / [map.at(k)] without the exception. *)
Fixpoint alist_find (k : K) (l : list (K * V)) : option V :=
  match l with
  | [] => None
  | (k', v) :: rest => if K_eq_dec k k' then Some v else alist_find k rest
  end.

(** [map[k] = v]: overwrite in place, or insert a new entry. A new key
    is appended here; [std::unordered_map] fixes no iteration order after
    an insertion (it may rehash), so only order-independent facts about
    the map after an insertion reflect the code. *)
Fixpoint alist_set (k : K) (v : V) (l : list (K * V)) : list (K * V) :=
  match l with
  | [] => [(k, v)]
  | (k', v') :: rest =>
      if K_eq_dec k k' then (k', v) :: rest else (k', v') :: alist_set k v rest
  end.

(** [map[k]] used as an lvalue: default-constructs the entry when absent. *)
Definition alist_index (dflt : V) (k : K) (l : list (K * V)) : V * list (K * V) :=
  match alist_find k l with
  | Some v => (v, l)
  | None => (dflt, alist_set k dflt l)
  end.

Lemma alist_find_set_eq (k : K) (v : V) (l : list (K * V)) :
  alist_find k (alist_set k v l) = Some v.
Proof.
  induction l as [|[k' v'] rest IH]; simpl.
  - destruct (K_eq_dec k k); congruence.
  - destruct (K_eq_dec k k') as [->|Hne]; simpl.
    + destruct (K_eq_dec k' k'); congruence.
    + destruct (K_eq_dec k k'); [contradiction | exact IH].
Qed.

Lemma alist_find_set_neq (k k2 : K) (v : V) (l : list (K * V)) :
  k2 <> k -> alist_find k2 (alist_set k v l) = alist_find k2 l.
Proof.
  intros Hne. induction l as [|[k' v'] rest IH]; simpl.
  - destruct (K_eq_dec k2 k); congruence.
  - destruct (K_eq_dec k k') as [->|Hne']; simpl.
    + destruct (K_eq_dec k2 k'); congruence.
    + destruct (K_eq_dec k2 k'); [reflexivity | exact IH].
Qed.
End Alist.

Arguments alist_find {K V} K_eq_dec k l.
Arguments alist_set {K V} K_eq_dec k v l.
Arguments alist_index {K V} K_eq_dec dflt k l.

(* ------------------------------------------------------------------ *)
(** ** Exceptions *)

(** The C++ exception classes the embedded code throws. *)
Inductive cpp_exception :=
| runtime_error (msg : string)
| out_of_range (msg : string)
| logic_error (msg : string).

(* ------------------------------------------------------------------ *)
(** ** Host objects and dihedrals *)

(** Addresses in the [std::set<void*>] handed to [destructors_done]:
    distinct objects have distinct addresses, whatever their class. *)
Inductive void_ptr :=
| PAtom (a : nat)
| PResidue (r : nat)
| PDihedral (d : nat).

Definition void_ptr_eq_dec (x y : void_ptr) : {x = y} + {x <> y}.
Proof. decide equality; apply Nat.eq_dec. Defined.

Definition set_contains (s : list void_ptr) (p : void_ptr) : bool :=
  if in_dec void_ptr_eq_dec p s then true else false.

(** A [Proper_Dihedral]: its own address, its four atoms, the optional
    owning residue ([_residue], [nullptr] when unset) and [_name]. *)
Record Dihedral := mkDihedral {
  dh_ptr : nat;
  dh_atoms : list nat;
  dh_residue : option nat;
  dh_name : string
}.

(** [d_def]: atom names and externality flags. *)
Definition d_def : Type := (list string * list bool)%type.
Definition Dmap : Type := list (string * Dihedral).
Definition Rmap : Type := list (nat * Dmap).
Definition Amap : Type := list (string * d_def).
Definition Nmap : Type := list (string * Amap).

(** The fields of [Dihedral_Mgr] used by the embedded methods. *)
Record Dihedral_Mgr := mkDihedral_Mgr {
  _residue_map : Rmap;
  _residue_name_map : Nmap;
  _dihedrals : list Dihedral
}.

Definition empty_Dihedral_Mgr : Dihedral_Mgr := mkDihedral_Mgr [] [] [].

(** [Dihedral_Mgr::add_dihedral_def].  The state is returned together with
    the exception escaping the call, if any: [_residue_name_map[rname]]
    has already run when the duplicate check throws. *)
Definition add_dihedral_def (m : Dihedral_Mgr) (rname dname : string)
    (anames : list string) (externals : list bool)
    : Dihedral_Mgr * option cpp_exception :=
  let '(am, nm) := alist_index string_dec ([] : Amap) rname (_residue_name_map m) in
  match alist_find string_dec dname am with
  | Some _ =>
      (mkDihedral_Mgr (_residue_map m) nm (_dihedrals m),
       Some (runtime_error "Dihedral definition already exists!"))
  | None =>
      let am' := alist_set string_dec dname (anames, externals) am in
      (mkDihedral_Mgr (_residue_map m) (alist_set string_dec rname am' nm)
         (_dihedrals m), None)
  end.

(** [Dihedral_Mgr::get_dihedral_def]: [at(rname).at(dname)]. *)
Definition get_dihedral_def (m : Dihedral_Mgr) (rname dname : string)
    : d_def + cpp_exception :=
  match alist_find string_dec rname (_residue_name_map m) with
  | Some am =>
      match alist_find string_dec dname am with
      | Some dd => inl dd
      | None => inr (out_of_range "Unrecognised dihedral def!")
      end
  | None => inr (out_of_range "Unrecognised dihedral def!")
  end.

(** [Dihedral_Mgr::num_mapped_dihedrals]: the nested counting loop. *)
Fixpoint count_dmap (dm : Dmap) : nat :=
  match dm with
  | [] => 0
  | _ :: rest => S (count_dmap rest)
  end.

Fixpoint num_mapped_rmap (rm : Rmap) : nat :=
  match rm with
  | [] => 0
  | (_, dm) :: rest => count_dmap dm + num_mapped_rmap rest
  end.

Definition num_mapped_dihedrals (m : Dihedral_Mgr) : nat :=
  num_mapped_rmap (_residue_map m).

(** [std::find] on the vector of pointers. *)
Definition stored (d : Dihedral) (ds : list Dihedral) : bool :=
  existsb (fun d' => Nat.eqb (dh_ptr d') (dh_ptr d)) ds.

(** [Dihedral_Mgr::add_dihedral].  [d->residue()] throws [runtime_error]
    when no residue is assigned; the handler returns, keeping the
    [push_back] already done. *)
Definition add_dihedral (m : Dihedral_Mgr) (d : Dihedral) : Dihedral_Mgr :=
  let ds := if stored d (_dihedrals m) then _dihedrals m
            else _dihedrals m ++ [d] in
  match dh_residue d with
  | None => mkDihedral_Mgr (_residue_map m) (_residue_name_map m) ds
  | Some r =>
      if String.eqb (dh_name d) "" then
        mkDihedral_Mgr (_residue_map m) (_residue_name_map m) ds
      else
        let '(dm, rm) := alist_index Nat.eq_dec ([] : Dmap) r (_residue_map m) in
        let dm' := alist_set string_dec (dh_name d) d dm in
        mkDihedral_Mgr (alist_set Nat.eq_dec r dm' rm) (_residue_name_map m) ds
  end.

(** Inner loop of [destructors_done]: erase entries whose dihedral
    address is in [destroyed]. *)
Fixpoint purge_dmap (destroyed : list void_ptr) (dm : Dmap) : Dmap :=
  match dm with
  | [] => []
  | (n, dp) :: rest =>
      if set_contains destroyed (PDihedral (dh_ptr dp)) then purge_dmap destroyed rest
      else (n, dp) :: purge_dmap destroyed rest
  end.

(** Outer loop: purge each residue's map, then erase the residue entry
    itself if the residue was destroyed. *)
Fixpoint purge_rmap (destroyed : list void_ptr) (rm : Rmap) : Rmap :=
  match rm with
  | [] => []
  | (r, dm) :: rest =>
      let dm' := purge_dmap destroyed dm in
      if set_contains destroyed (PResidue r) then purge_rmap destroyed rest
      else (r, dm') :: purge_rmap destroyed rest
  end.

(** [Dihedral_Mgr::destructors_done]. *)
Definition destructors_done (m : Dihedral_Mgr) (destroyed : list void_ptr)
    : Dihedral_Mgr :=
  mkDihedral_Mgr (purge_rmap destroyed (_residue_map m)) (_residue_name_map m)
    (filter (fun d => negb (set_contains destroyed (PDihedral (dh_ptr d))))
       (_dihedrals m)).

(** The (residue, name, dihedral) index entries of a residue map, in
    iteration order. *)
Definition rmap_entries (rm : Rmap) : list (nat * string * Dihedral) :=
  flat_map (fun '(r, dm) => map (fun '(n, d) => (r, n, d)) dm) rm.

(** Whether [destructors_done] keeps an index entry. *)
Definition entry_survives (destroyed : list void_ptr) (e : nat * string * Dihedral)
    : bool :=
  let '(r, _, d) := e in
  negb (set_contains destroyed (PResidue r)) &&
  negb (set_contains destroyed (PDihedral (dh_ptr d))).

(* ------------------------------------------------------------------ *)
(** ** Constants ([constants.h]) *)

Local Open Scope R_scope.

Definition TWO_PI : R := 2 * PI.
Definition LINEAR_RESTRAINT_MAX_RADIUS : R := 3 / 10.
Definition LINEAR_RESTRAINT_MIN_RADIUS : R := 25 / 1000.
Definition MAX_LINEAR_SPRING_CONSTANT : R := 100000.
Definition MIN_DISTANCE_RESTRAINT_TARGET : R := 1.

(* ------------------------------------------------------------------ *)
(** ** [remainder] from [<cmath>] and [Dihedral::set_target] *)

(** The integer nearest to [z], ties to the even one (the rounding of
    IEEE 754 [remainder]).  [up z - 1] is the floor of [z]. *)
Definition round_half_even (z : R) : Z :=
  let f := (up z - 1)%Z in
  let fr := z - IZR f in
  if Rlt_dec fr (1 / 2) then f
  else if Rlt_dec (1 / 2) fr then (f + 1)%Z
  else if Z.even f then f else (f + 1)%Z.

(** [remainder(x, y)] is exact: [x - n*y] with [n] the nearest integer to
    [x/y], ties to even. *)
Definition remainder (x y : R) : R := x - IZR (round_half_even (x / y)) * y.

(** The angle fields of [Dihedral]. *)
Record Dihedral_angles := mkDihedral_angles {
  _target_angle : R;
  _dihedral_spring_constant : R
}.

(** [Dihedral::set_target]: [_target_angle = remainder(val, TWO_PI)]. *)
Definition dihedral_set_target (d : Dihedral_angles) (val : R) : Dihedral_angles :=
  mkDihedral_angles (remainder val TWO_PI) (_dihedral_spring_constant d).

(** [Dihedral::target]. *)
Definition dihedral_target (d : Dihedral_angles) : R := _target_angle d.

(* ------------------------------------------------------------------ *)
(** ** Atoms and change tracking *)

Definition Coord : Type := (R * R * R)%type.

(** The part of a host [Atom] the restraint code reads: its address,
    [structure()], [element().number()], [coord()] and, for each of its
    [bonds()], the addresses of the bond's two [atoms()]. *)
Record Atom := mkAtom {
  atom_ptr : nat;
  atom_structure : nat;
  atom_element_number : nat;
  atom_coord : Coord;
  atom_bonds : list (nat * nat)
}.

(** The reason flags of the change tracker. *)
Inductive Reason :=
| REASON_TARGET_CHANGED
| REASON_SPRING_CONSTANT_CHANGED
| REASON_ENABLED_CHANGED.

(** The calls a restraint or manager makes into its manager's change
    tracking: [track_change(this, reason)] and [track_created(r)]. *)
Inductive Tracked :=
| track_change (restraint : nat) (reason : Reason)
| track_created (restraint : nat).

Definition Reason_eq_dec (x y : Reason) : {x = y} + {x <> y}.
Proof. decide equality. Defined.

(** Number of [track_change] calls with a given reason in a call log. *)
Definition count_reason (why : Reason) (log : list Tracked) : nat :=
  List.length (filter (fun t => match t with
                           | track_change _ r => if Reason_eq_dec r why then true else false
                           | track_created _ => false
                           end) log).

(** [k<0 ? 0.0 : (k > MAX_LINEAR_SPRING_CONSTANT ? MAX_LINEAR_SPRING_CONSTANT : k)] *)
Definition clamp_k (k : R) : R :=
  if Rlt_dec k 0 then 0
  else if Rlt_dec MAX_LINEAR_SPRING_CONSTANT k then MAX_LINEAR_SPRING_CONSTANT
  else k.

(* ------------------------------------------------------------------ *)
(** ** [Position_Restraint] ([sim_restraint_base.h], [part_003]) *)

Module Position_Restraint.

Record t := mk {
  ptr : nat;
  _atom : Atom;
  _target : Coord;
  _spring_constant : R;
  _enabled : bool
}.

Definition with_target (r : t) (c : Coord) : t :=
  mk (ptr r) (_atom r) c (_spring_constant r) (_enabled r).
Definition with_k (r : t) (k : R) : t :=
  mk (ptr r) (_atom r) (_target r) k (_enabled r).
Definition with_enabled (r : t) (b : bool) : t :=
  mk (ptr r) (_atom r) (_target r) (_spring_constant r) b.

(** [Position_Restraint::set_target(x, y, z)]. *)
Definition set_target (r : t) (x y z : R) : t * list Tracked :=
  (with_target r (x, y, z), [track_change (ptr r) REASON_TARGET_CHANGED]).

(** [Position_Restraint::set_k]. *)
Definition set_k (r : t) (k : R) : t * list Tracked :=
  (with_k r (clamp_k k), [track_change (ptr r) REASON_SPRING_CONSTANT_CHANGED]).

(** [Position_Restraint::set_enabled]. *)
Definition set_enabled (r : t) (flag : bool) : t * list Tracked :=
  if Bool.eqb (_enabled r) flag then (r, [])
  else (with_enabled r flag, [track_change (ptr r) REASON_ENABLED_CHANGED]).

(** [Position_Restraint::radius]. *)
Definition radius (r : t) : R :=
  _spring_constant r / MAX_LINEAR_SPRING_CONSTANT
    * (LINEAR_RESTRAINT_MAX_RADIUS - LINEAR_RESTRAINT_MIN_RADIUS)
    + LINEAR_RESTRAINT_MIN_RADIUS.

(** [Position_Restraint(atom, target, mgr)] at address [p]: the field
    initialisers ([_spring_constant = 0.0], [_enabled = false]) then
    [set_target(target[0], target[1], target[2])]. *)
Definition construct (p : nat) (atom : Atom) (target : Coord) : t * list Tracked :=
  let '(x, y, z) := target in
  set_target (mk p atom (0, 0, 0) 0 false) x y z.

End Position_Restraint.

(** The fields of [Position_Restraint_Mgr] used here; [next_ptr] is the
    address the next [new] returns. *)
Record Position_Restraint_Mgr := mkPosition_Restraint_Mgr {
  pm_atomic_model : nat;
  pm_atom_to_restraint : list (nat * Position_Restraint.t);
  pm_next_ptr : nat
}.

Definition error_different_mol : string := "This atom is in the wrong structure!".
Definition error_hydrogen : string := "Restraints on hydrogen atoms are not allowed!".

(** [Position_Restraint_Mgr_Base::_new_restraint(atom, target)]. *)
Definition pos_new_restraint_at (m : Position_Restraint_Mgr) (atom : Atom) (target : Coord)
    : (Position_Restraint_Mgr * Position_Restraint.t * list Tracked) + cpp_exception :=
  if negb (Nat.eqb (atom_structure atom) (pm_atomic_model m)) then
    inr (logic_error error_different_mol)
  else if Nat.eqb (atom_element_number atom) 1 then
    inr (logic_error error_hydrogen)
  else
    let '(r, log) := Position_Restraint.construct (pm_next_ptr m) atom target in
    inl (mkPosition_Restraint_Mgr (pm_atomic_model m)
           (alist_set Nat.eq_dec (atom_ptr atom) r (pm_atom_to_restraint m))
           (S (pm_next_ptr m)),
         r, log ++ [track_created (Position_Restraint.ptr r)]).

(** [Position_Restraint_Mgr_Base::_new_restraint(atom)]. *)
Definition pos_new_restraint (m : Position_Restraint_Mgr) (atom : Atom) :=
  pos_new_restraint_at m atom (atom_coord atom).

(** [Position_Restraint_Mgr_Base::get_restraint(atom, create)]; [None]
    is the [nullptr] result. *)
Definition pos_get_restraint (m : Position_Restraint_Mgr) (atom : Atom) (create : bool)
    : (Position_Restraint_Mgr * option Position_Restraint.t * list Tracked) + cpp_exception :=
  match alist_find Nat.eq_dec (atom_ptr atom) (pm_atom_to_restraint m) with
  | Some r => inl (m, Some r, [])
  | None =>
      if create then
        match pos_new_restraint m atom with
        | inl (m', r, log) => inl (m', Some r, log)
        | inr e => inr e
        end
      else inl (m, None, [])
  end.

(* ------------------------------------------------------------------ *)
(** ** [Distance_Restraint] ([distance_restraints.cpp]) *)

Module Distance_Restraint.

(** The fields, with the simulation-index slot of [Sim_Restraint_Base]. *)
Record t := mk {
  ptr : nat;
  _atoms : Atom * Atom;
  _target : R;
  _spring_constant : R;
  _enabled : bool;
  _sim_index : Z
}.

Definition with_target (r : t) (x : R) : t :=
  mk (ptr r) (_atoms r) x (_spring_constant r) (_enabled r) (_sim_index r).
Definition with_k (r : t) (k : R) : t :=
  mk (ptr r) (_atoms r) (_target r) k (_enabled r) (_sim_index r).
Definition with_enabled (r : t) (b : bool) : t :=
  mk (ptr r) (_atoms r) (_target r) (_spring_constant r) b (_sim_index r).
Definition with_sim_index (r : t) (i : Z) : t :=
  mk (ptr r) (_atoms r) (_target r) (_spring_constant r) (_enabled r) i.

(** [Distance_Restraint::set_target]. *)
Definition set_target (r : t) (target : R) : t * list Tracked :=
  (with_target r (if Rlt_dec target MIN_DISTANCE_RESTRAINT_TARGET
                  then MIN_DISTANCE_RESTRAINT_TARGET else target),
   [track_change (ptr r) REASON_TARGET_CHANGED]).

(** [Distance_Restraint::set_k]. *)
Definition set_k (r : t) (k : R) : t * list Tracked :=
  (with_k r (clamp_k k), [track_change (ptr r) REASON_SPRING_CONSTANT_CHANGED]).

(** [Distance_Restraint::set_enabled]. *)
Definition set_enabled (r : t) (flag : bool) : t * list Tracked :=
  if negb (Bool.eqb (_enabled r) flag)
  then (with_enabled r flag, [track_change (ptr r) REASON_ENABLED_CHANGED])
  else (r, []).

(** [Sim_Restraint_Base::set_sim_index] and [clear_sim_index]. *)
Definition set_sim_index (r : t) (index : Z) : t := with_sim_index r index.
Definition clear_sim_index (r : t) : t := with_sim_index r (-1)%Z.

(** [Distance_Restraint::radius]. *)
Definition radius (r : t) : R :=
  sqrt (_spring_constant r / MAX_LINEAR_SPRING_CONSTANT)
    * (LINEAR_RESTRAINT_MAX_RADIUS - LINEAR_RESTRAINT_MIN_RADIUS)
    + LINEAR_RESTRAINT_MIN_RADIUS.

(** The message of [err_msg_bonded()] (declared in
    [distance_restraints.h], not under src/). *)
Definition err_msg_bonded : string := "err_msg_bonded".

(** The loop of the three-argument constructor: does any bond of [a1]
    have [a2] among its atoms? *)
Definition bonded_to (a1 a2 : Atom) : bool :=
  existsb (fun b => Nat.eqb (fst b) (atom_ptr a2) || Nat.eqb (snd b) (atom_ptr a2))
    (atom_bonds a1).

(** [Distance_Restraint(a1, a2, mgr)] at address [p].  The in-class
    initialisers of [_target], [_spring_constant] and [_enabled] live in
    [distance_restraints.h], which is not under src/: they are the
    argument [init]. *)
Definition construct3 (p : nat) (a1 a2 : Atom) (init : R * R * bool)
    : t + cpp_exception :=
  if bonded_to a1 a2 then inr (logic_error err_msg_bonded)
  else let '(t0, k0, e0) := init in inl (mk p (a1, a2) t0 k0 e0 (-1)%Z).

(** [Distance_Restraint(a1, a2, mgr, target, k)]: delegate, then
    [set_target(target); set_k(k); set_enabled(false)]. *)
Definition construct5 (p : nat) (a1 a2 : Atom) (init : R * R * bool) (target k : R)
    : (t * list Tracked) + cpp_exception :=
  match construct3 p a1 a2 init with
  | inr e => inr e
  | inl r0 =>
      let '(r1, l1) := set_target r0 target in
      let '(r2, l2) := set_k r1 k in
      let '(r3, l3) := set_enabled r2 false in
      inl (r3, l1 ++ l2 ++ l3)
  end.

(** The operations a live restraint undergoes. *)
Inductive op :=
| OpSetTarget (x : R)
| OpSetK (k : R)
| OpSetEnabled (b : bool)
| OpSetSimIndex (i : Z)
| OpClearSimIndex.

Definition step (r : t) (o : op) : t :=
  match o with
  | OpSetTarget x => fst (set_target r x)
  | OpSetK k => fst (set_k r k)
  | OpSetEnabled b => fst (set_enabled r b)
  | OpSetSimIndex i => set_sim_index r i
  | OpClearSimIndex => clear_sim_index r
  end.

Definition run (r : t) (os : list op) : t := fold_left step os r.

End Distance_Restraint.

(** Modelled from the spec: [Distance_Restraint_Mgr_Tmpl] (declared in
    [distance_restraints.h], not under src/): its bound structure, its
    restraints, and the address of the next [new]. *)
Record Distance_Restraint_Mgr := mkDistance_Restraint_Mgr {
  dm_structure : nat;
  dm_restraints : list Distance_Restraint.t;
  dm_next_ptr : nat
}.

Definition same_pair (a1 a2 : Atom) (r : Distance_Restraint.t) : bool :=
  let '(b1, b2) := Distance_Restraint._atoms r in
  (Nat.eqb (atom_ptr b1) (atom_ptr a1) && Nat.eqb (atom_ptr b2) (atom_ptr a2)) ||
  (Nat.eqb (atom_ptr b1) (atom_ptr a2) && Nat.eqb (atom_ptr b2) (atom_ptr a1)).

(** Modelled from the spec: [Distance_Restraint_Mgr_Tmpl::get_restraint(a1,
    a2, create)] (not under src/).  Returns the existing restraint on the
    pair; otherwise, if [create], fails with a domain error when an atom
    belongs to another structure, else builds the restraint with the
    source's five-argument constructor, spring constant 0 and the given
    initial target; otherwise [nullptr]. *)
Definition dist_get_restraint (m : Distance_Restraint_Mgr) (a1 a2 : Atom) (create : bool)
    (init : R * R * bool) (target : R)
    : (Distance_Restraint_Mgr * option Distance_Restraint.t * list Tracked) + cpp_exception :=
  match find (same_pair a1 a2) (dm_restraints m) with
  | Some r => inl (m, Some r, [])
  | None =>
      if negb create then inl (m, None, [])
      else if negb (Nat.eqb (atom_structure a1) (dm_structure m)
                    && Nat.eqb (atom_structure a2) (dm_structure m)) then
        inr (logic_error error_different_mol)
      else
        match Distance_Restraint.construct5 (dm_next_ptr m) a1 a2 init target 0 with
        | inr e => inr e
        | inl (r, log) =>
            inl (mkDistance_Restraint_Mgr (dm_structure m) (r :: dm_restraints m)
                   (S (dm_next_ptr m)),
                 Some r, log ++ [track_created (Distance_Restraint.ptr r)])
        end
  end.

(* ------------------------------------------------------------------ *)
(** ** Further members of the managers and restraints *)

(** [Dihedral_Mgr::size]: the number of residues in [_residue_map]. *)
Definition dihedral_mgr_size (m : Dihedral_Mgr) : nat := List.length (_residue_map m).

(** The (residue, name) index read as [_residue_map.at(r).at(name)], with
    [None] for a missing key. *)
Definition residue_map_lookup (m : Dihedral_Mgr) (r : nat) (name : string) : option Dihedral :=
  match alist_find Nat.eq_dec r (_residue_map m) with
  | Some dm => alist_find string_dec name dm
  | None => None
  end.

(** [std::unordered_map::erase(key)]. *)
Definition alist_erase {K V : Type} (K_eq_dec : forall x y : K, {x = y} + {x <> y})
    (k : K) (l : list (K * V)) : list (K * V) :=
  filter (fun kv => if K_eq_dec k (fst kv) then false else true) l.

(** [Position_Restraint::target_vector]: target minus the atom's coordinate. *)
Definition target_vector (r : Position_Restraint.t) : Coord :=
  let '(tx, ty, tz) := Position_Restraint._target r in
  let '(ax, ay, az) := atom_coord (Position_Restraint._atom r) in
  (tx - ax, ty - ay, tz - az).

(** [Position_Restraint::visible]; [atom_visible] is the host's
    [Atom::visible()]. *)
Definition pos_visible (atom_visible : Atom -> bool) (r : Position_Restraint.t) : bool :=
  atom_visible (Position_Restraint._atom r) && Position_Restraint._enabled r.

(** [Distance_Restraint::visible]. *)
Definition dist_visible (atom_visible : Atom -> bool) (r : Distance_Restraint.t) : bool :=
  atom_visible (fst (Distance_Restraint._atoms r))
  && atom_visible (snd (Distance_Restraint._atoms r))
  && Distance_Restraint._enabled r.

(** [Position_Restraint_Mgr_Base::num_restraints]. *)
Definition num_restraints (m : Position_Restraint_Mgr) : nat :=
  List.length (pm_atom_to_restraint m).

(** [Position_Restraint_Mgr_Base::visible_restraints]: the visible
    restraints in map iteration order. *)
Definition visible_restraints (atom_visible : Atom -> bool) (m : Position_Restraint_Mgr)
    : list Position_Restraint.t :=
  filter (pos_visible atom_visible) (map snd (pm_atom_to_restraint m)).

(** [Position_Restraint_Mgr_Base::_delete_restraints]: erase each
    restraint's atom from the map ([delete r] frees memory only). *)
Definition pos_delete_restraints_impl (m : Position_Restraint_Mgr)
    (to_delete : list Position_Restraint.t) : Position_Restraint_Mgr :=
  mkPosition_Restraint_Mgr (pm_atomic_model m)
    (fold_left (fun map r => alist_erase Nat.eq_dec (atom_ptr (Position_Restraint._atom r)) map)
       to_delete (pm_atom_to_restraint m))
    (pm_next_ptr m).

(** [Position_Restraint_Mgr_Base::delete_restraints]. *)
Definition pos_delete_restraints (m : Position_Restraint_Mgr)
    (to_delete : list Position_Restraint.t) : Position_Restraint_Mgr :=
  pos_delete_restraints_impl m to_delete.

(** [Position_Restraint_Mgr_Base::destructors_done]: collect the
    restraints whose atom was destroyed, then delete them. *)
Definition pos_destructors_done (m : Position_Restraint_Mgr) (destroyed : list void_ptr)
    : Position_Restraint_Mgr :=
  pos_delete_restraints_impl m
    (filter (fun r => set_contains destroyed (PAtom (atom_ptr (Position_Restraint._atom r))))
       (map snd (pm_atom_to_restraint m))).

(** Every key of [_atom_to_restraint] is the address of its restraint's
    atom, as [_new_restraint] inserts it. *)
Definition pos_well_keyed (m : Position_Restraint_Mgr) : Prop :=
  Forall (fun kr => fst kr = atom_ptr (Position_Restraint._atom (snd kr)))
    (pm_atom_to_restraint m).

(* ================================================================== *)
(** * Properties *)

Local Close Scope R_scope.

(* ------------------------------------------------------------------ *)
(** ** Destruction purge of [Dihedral_Mgr] *)

Lemma count_dmap_length (dm : Dmap) : count_dmap dm = List.length dm.
Proof. induction dm; simpl; auto. Qed.

Lemma num_mapped_rmap_entries (rm : Rmap) :
  num_mapped_rmap rm = List.length (rmap_entries rm).
Proof.
  induction rm as [|[r dm] rest IH]; simpl; [reflexivity|].
  rewrite length_app, length_map, count_dmap_length, IH. reflexivity.
Qed.

Lemma purge_dmap_entries (D : list void_ptr) (r : nat) (dm : Dmap) :
  set_contains D (PResidue r) = false ->
  map (fun '(n, d) => (r, n, d)) (purge_dmap D dm)
  = filter (entry_survives D) (map (fun '(n, d) => (r, n, d)) dm).
Proof.
  intros Hr. induction dm as [|[n d] rest IH]; simpl; [reflexivity|].
  rewrite Hr; simpl.
  destruct (set_contains D (PDihedral (dh_ptr d))); simpl; rewrite IH; reflexivity.
Qed.

Lemma filter_dead_residue (D : list void_ptr) (r : nat) (dm : Dmap) :
  set_contains D (PResidue r) = true ->
  filter (entry_survives D) (map (fun '(n, d) => (r, n, d)) dm) = [].
Proof.
  intros Hr. induction dm as [|[n d] rest IH]; simpl; [reflexivity|].
  rewrite Hr; simpl. exact IH.
Qed.

Lemma purge_rmap_entries (D : list void_ptr) (rm : Rmap) :
  rmap_entries (purge_rmap D rm) = filter (entry_survives D) (rmap_entries rm).
Proof.
  induction rm as [|[r dm] rest IH]; simpl; [reflexivity|].
  fold (rmap_entries rest). rewrite filter_app.
  destruct (set_contains D (PResidue r)) eqn:Hr.
  - rewrite filter_dead_residue by exact Hr. simpl. exact IH.
  - simpl. fold (rmap_entries (purge_rmap D rest)).
    rewrite purge_dmap_entries by exact Hr. rewrite IH. reflexivity.
Qed.

Lemma length_filter_split {A} (p : A -> bool) (l : list A) :
  List.length l = List.length (filter p l) + List.length (filter (fun x => negb (p x)) l).
Proof.
  induction l as [|x l IH]; simpl; [reflexivity|].
  destruct (p x); simpl; lia.
Qed.

(** A manager holding one mapped dihedral on atoms 1..4 of residue 7. *)
Definition phi_dihedral : Dihedral := mkDihedral 100 [1; 2; 3; 4] (Some 7) "phi".
Definition phi_mgr : Dihedral_Mgr := add_dihedral empty_Dihedral_Mgr phi_dihedral.

Example phi_mgr_mapped : num_mapped_dihedrals phi_mgr = 1.
Proof. reflexivity. Qed.

(** C1 (counterexample): notifying the destruction of atom 1 alone leaves
    the mapped dihedral on atoms 1..4 in the index, and
    [num_mapped_dihedrals()] does not decrease. *)
Lemma destructors_done_atom_only_keeps_dihedral :
  In (7, "phi"%string, phi_dihedral) (rmap_entries (_residue_map phi_mgr)) /\
  In 1 (dh_atoms phi_dihedral) /\
  In (7, "phi"%string, phi_dihedral)
     (rmap_entries (_residue_map (destructors_done phi_mgr [PAtom 1]))) /\
  num_mapped_dihedrals (destructors_done phi_mgr [PAtom 1]) = num_mapped_dihedrals phi_mgr.
Proof. vm_compute. repeat split; auto. Qed.

(** C1 (what the code does): [destructors_done] removes exactly the
    (residue, name) index entries whose residue or whose dihedral is among
    the destroyed identities, keeps every other entry in order, and
    [num_mapped_dihedrals()] drops by exactly the number of removed
    entries; the owned-dihedral list loses exactly the destroyed
    dihedrals. Destroyed atoms are not looked at, unlike the atom-based
    purge of [Position_Restraint_Mgr_Base::destructors_done] and the
    automatic deletion the [Dihedral] documentation promises. *)
Theorem destructors_done_purges_destroyed_entries (m : Dihedral_Mgr) (destroyed : list void_ptr) :
  rmap_entries (_residue_map (destructors_done m destroyed))
    = filter (entry_survives destroyed) (rmap_entries (_residue_map m)) /\
  num_mapped_dihedrals m
    = num_mapped_dihedrals (destructors_done m destroyed)
      + List.length (filter (fun e => negb (entry_survives destroyed e))
                       (rmap_entries (_residue_map m))) /\
  _dihedrals (destructors_done m destroyed)
    = filter (fun d => negb (set_contains destroyed (PDihedral (dh_ptr d)))) (_dihedrals m).
Proof.
  unfold num_mapped_dihedrals, destructors_done; simpl.
  rewrite !num_mapped_rmap_entries, purge_rmap_entries.
  split; [reflexivity|]. split; [|reflexivity].
  apply length_filter_split.
Qed.

(* ------------------------------------------------------------------ *)
(** ** Dihedral definition registry *)

Lemma get_dihedral_def_absent (m : Dihedral_Mgr) (rname dname : string) e :
  get_dihedral_def m rname dname = inr e ->
  match alist_find string_dec rname (_residue_name_map m) with
  | Some am => alist_find string_dec dname am = None
  | None => True
  end.
Proof.
  unfold get_dihedral_def.
  destruct (alist_find string_dec rname (_residue_name_map m)) as [am|]; [|trivial].
  destruct (alist_find string_dec dname am); congruence.
Qed.

(** C8: a duplicate (residue type, name) pair makes [add_dihedral_def]
    throw "Dihedral definition already exists!" and leaves the whole
    manager, in particular the existing definition, as it was; a new pair
    is stored, is returned by [get_dihedral_def], and every other pair's
    lookup is unchanged. *)
Theorem add_dihedral_def_duplicate_or_stored (m : Dihedral_Mgr) (rname dname : string)
    (anames : list string) (externals : list bool) :
  (forall dd, get_dihedral_def m rname dname = inl dd ->
     add_dihedral_def m rname dname anames externals
       = (m, Some (runtime_error "Dihedral definition already exists!")) /\
     get_dihedral_def (fst (add_dihedral_def m rname dname anames externals)) rname dname
       = inl dd) /\
  (forall e, get_dihedral_def m rname dname = inr e ->
     snd (add_dihedral_def m rname dname anames externals) = None /\
     get_dihedral_def (fst (add_dihedral_def m rname dname anames externals)) rname dname
       = inl (anames, externals) /\
     (forall r2 d2, (r2, d2) <> (rname, dname) ->
        get_dihedral_def (fst (add_dihedral_def m rname dname anames externals)) r2 d2
          = get_dihedral_def m r2 d2)).
Proof.
  split.
  - intros dd Hget.
    assert (Hadd : add_dihedral_def m rname dname anames externals
                   = (m, Some (runtime_error "Dihedral definition already exists!"))).
    { destruct m as [rm nm ds].
      unfold get_dihedral_def in Hget. unfold add_dihedral_def, alist_index. simpl in *.
      destruct (alist_find string_dec rname nm) as [am|] eqn:Hr; [|discriminate].
      destruct (alist_find string_dec dname am) as [dd'|] eqn:Hd; [|discriminate].
      reflexivity. }
    rewrite Hadd. simpl. split; [reflexivity | exact Hget].
  - intros e Hget. pose proof (get_dihedral_def_absent _ _ _ _ Hget) as Habs.
    unfold add_dihedral_def, alist_index.
    destruct (alist_find string_dec rname (_residue_name_map m)) as [am|] eqn:Hr.
    + rewrite Habs. simpl. split; [reflexivity|]. split.
      * unfold get_dihedral_def; simpl.
        rewrite !alist_find_set_eq. reflexivity.
      * intros r2 d2 Hne. unfold get_dihedral_def; simpl.
        destruct (string_dec r2 rname) as [->|Hr2].
        -- rewrite alist_find_set_eq, Hr.
           rewrite alist_find_set_neq by congruence. reflexivity.
        -- rewrite alist_find_set_neq by exact Hr2. reflexivity.
    + simpl. split; [reflexivity|]. split.
      * unfold get_dihedral_def; simpl.
        rewrite alist_find_set_eq. simpl.
        destruct (string_dec dname dname); [reflexivity | congruence].
      * intros r2 d2 Hne. unfold get_dihedral_def; simpl.
        destruct (string_dec r2 rname) as [->|Hr2].
        -- rewrite alist_find_set_eq, Hr. simpl.
           destruct (string_dec d2 dname); [congruence | reflexivity].
        -- rewrite !alist_find_set_neq by exact Hr2. reflexivity.
Qed.

Local Open Scope string_scope.

Definition phi_def_mgr : Dihedral_Mgr :=
  fst (add_dihedral_def empty_Dihedral_Mgr "PRO" "phi" ["C"; "N"; "CA"; "C"]
         [true; false; false; false]).

(** C8 (witness): adding "PRO"/"phi" to an empty registry stores it;
    adding it again throws and leaves the registry unchanged. *)
Lemma add_dihedral_def_duplicate_or_stored_witness :
  get_dihedral_def empty_Dihedral_Mgr "PRO" "phi"
    = inr (out_of_range "Unrecognised dihedral def!") /\
  get_dihedral_def phi_def_mgr "PRO" "phi"
    = inl (["C"; "N"; "CA"; "C"], [true; false; false; false])%string /\
  get_dihedral_def phi_def_mgr "PRO" "phi"
    = get_dihedral_def phi_def_mgr "PRO" "phi" /\
  add_dihedral_def phi_def_mgr "PRO" "phi" ["X"; "Y"; "Z"; "W"] [false; false; false; false]
    = (phi_def_mgr, Some (runtime_error "Dihedral definition already exists!")).
Proof.
  split; [reflexivity|].
  split.
  - exact (proj1 (proj2 ((proj2 (add_dihedral_def_duplicate_or_stored empty_Dihedral_Mgr
             "PRO" "phi" ["C"; "N"; "CA"; "C"] [true; false; false; false]))
             (out_of_range "Unrecognised dihedral def!") eq_refl))).
  - split; [reflexivity|].
    exact (proj1 ((proj1 (add_dihedral_def_duplicate_or_stored phi_def_mgr "PRO" "phi"
             ["X"; "Y"; "Z"; "W"] [false; false; false; false]))
             (["C"; "N"; "CA"; "C"], [true; false; false; false])%string eq_refl)).
Defined.

Local Close Scope string_scope.

(* ------------------------------------------------------------------ *)
(** ** [add_dihedral] on the owned-dihedral list *)

Lemma add_dihedral_list (m : Dihedral_Mgr) (d : Dihedral) :
  _dihedrals (add_dihedral m d)
  = if stored d (_dihedrals m) then _dihedrals m else _dihedrals m ++ [d].
Proof.
  unfold add_dihedral.
  destruct (dh_residue d) as [r|]; [|reflexivity].
  destruct (String.eqb (dh_name d) ""); [reflexivity|].
  destruct (alist_index Nat.eq_dec ([] : Dmap) r (_residue_map m)); reflexivity.
Qed.

Lemma stored_in (d : Dihedral) (ds : list Dihedral) :
  stored d ds = true <-> In (dh_ptr d) (map dh_ptr ds).
Proof.
  unfold stored. rewrite existsb_exists. split.
  - intros [d' [Hin Heq]]. apply Nat.eqb_eq in Heq. rewrite <- Heq.
    apply in_map. exact Hin.
  - intros Hin. apply in_map_iff in Hin. destruct Hin as [d' [Heq Hin]].
    exists d'. split; [exact Hin|]. apply Nat.eqb_eq. exact Heq.
Qed.

Lemma add_dihedral_nodup (m : Dihedral_Mgr) (d : Dihedral) :
  NoDup (map dh_ptr (_dihedrals m)) -> NoDup (map dh_ptr (_dihedrals (add_dihedral m d))).
Proof.
  intros Hnd. rewrite add_dihedral_list.
  destruct (stored d (_dihedrals m)) eqn:Hs; [exact Hnd|].
  rewrite map_app. simpl.
  apply Permutation_NoDup with (l := dh_ptr d :: map dh_ptr (_dihedrals m)).
  - apply Permutation_cons_append.
  - constructor; [|exact Hnd].
    intros Hin. apply stored_in in Hin. congruence.
Qed.

Lemma fold_add_dihedral_nodup (ds : list Dihedral) (m : Dihedral_Mgr) :
  NoDup (map dh_ptr (_dihedrals m)) ->
  NoDup (map dh_ptr (_dihedrals (fold_left add_dihedral ds m))).
Proof.
  revert m. induction ds as [|d ds IH]; intros m Hnd; simpl; [exact Hnd|].
  apply IH. apply add_dihedral_nodup. exact Hnd.
Qed.

(** C10: after any sequence of [add_dihedral] calls on a fresh manager,
    every pointer occurs once in [_dihedrals]; adding a pointer that is
    already stored leaves [_dihedrals] unchanged, so it still occurs
    exactly once and the length does not grow. *)
Theorem add_dihedral_idempotent (ds : list Dihedral) (d : Dihedral) :
  NoDup (map dh_ptr (_dihedrals (fold_left add_dihedral ds empty_Dihedral_Mgr))) /\
  (stored d (_dihedrals (fold_left add_dihedral ds empty_Dihedral_Mgr)) = true ->
   _dihedrals (add_dihedral (fold_left add_dihedral ds empty_Dihedral_Mgr) d)
     = _dihedrals (fold_left add_dihedral ds empty_Dihedral_Mgr) /\
   count_occ Nat.eq_dec
     (map dh_ptr (_dihedrals (add_dihedral (fold_left add_dihedral ds empty_Dihedral_Mgr) d)))
     (dh_ptr d) = 1).
Proof.
  set (m := fold_left add_dihedral ds empty_Dihedral_Mgr).
  assert (Hnd : NoDup (map dh_ptr (_dihedrals m))).
  { apply fold_add_dihedral_nodup. constructor. }
  split; [exact Hnd|].
  intros Hs.
  assert (Heq : _dihedrals (add_dihedral m d) = _dihedrals m).
  { rewrite add_dihedral_list, Hs. reflexivity. }
  split; [exact Heq|].
  rewrite Heq. apply (proj1 (NoDup_count_occ' Nat.eq_dec _) Hnd).
  apply stored_in. exact Hs.
Qed.

(** C10 (witness): adding [phi_dihedral] twice stores it once. *)
Lemma add_dihedral_idempotent_witness :
  stored phi_dihedral (_dihedrals (fold_left add_dihedral [phi_dihedral] empty_Dihedral_Mgr))
    = true /\
  _dihedrals (add_dihedral (fold_left add_dihedral [phi_dihedral] empty_Dihedral_Mgr)
                phi_dihedral)
    = _dihedrals (fold_left add_dihedral [phi_dihedral] empty_Dihedral_Mgr).
Proof.
  assert (Hs : stored phi_dihedral
                 (_dihedrals (fold_left add_dihedral [phi_dihedral] empty_Dihedral_Mgr))
               = true) by reflexivity.
  split; [exact Hs|].
  exact (proj1 (proj2 (add_dihedral_idempotent [phi_dihedral] phi_dihedral) Hs)).
Defined.

(* ------------------------------------------------------------------ *)
(** ** Restraint setters *)

Local Open Scope R_scope.

Lemma clamp_k_spec (v : R) :
  (v < 0 -> clamp_k v = 0) /\
  (MAX_LINEAR_SPRING_CONSTANT < v -> clamp_k v = MAX_LINEAR_SPRING_CONSTANT) /\
  (0 <= v <= MAX_LINEAR_SPRING_CONSTANT -> clamp_k v = v).
Proof.
  unfold clamp_k, MAX_LINEAR_SPRING_CONSTANT.
  destruct (Rlt_dec v 0); destruct (Rlt_dec 100000 v); repeat split; intros; lra.
Qed.

Lemma clamp_k_bounds (v : R) : 0 <= clamp_k v <= MAX_LINEAR_SPRING_CONSTANT.
Proof.
  unfold clamp_k, MAX_LINEAR_SPRING_CONSTANT.
  destruct (Rlt_dec v 0); [lra|]. destruct (Rlt_dec 100000 v); lra.
Qed.

(** C4: [set_k(v)] stores 0 below 0, [MAX_LINEAR_SPRING_CONSTANT] above
    it, and [v] itself in between, for position and distance restraints
    alike. *)
Theorem set_k_clamps (p : Position_Restraint.t) (d : Distance_Restraint.t) (v : R) :
  (v < 0 ->
     Position_Restraint._spring_constant (fst (Position_Restraint.set_k p v)) = 0 /\
     Distance_Restraint._spring_constant (fst (Distance_Restraint.set_k d v)) = 0) /\
  (MAX_LINEAR_SPRING_CONSTANT < v ->
     Position_Restraint._spring_constant (fst (Position_Restraint.set_k p v))
       = MAX_LINEAR_SPRING_CONSTANT /\
     Distance_Restraint._spring_constant (fst (Distance_Restraint.set_k d v))
       = MAX_LINEAR_SPRING_CONSTANT) /\
  (0 <= v <= MAX_LINEAR_SPRING_CONSTANT ->
     Position_Restraint._spring_constant (fst (Position_Restraint.set_k p v)) = v /\
     Distance_Restraint._spring_constant (fst (Distance_Restraint.set_k d v)) = v).
Proof.
  simpl. destruct (clamp_k_spec v) as [H1 [H2 H3]].
  repeat split; intros; auto.
Qed.

(** C6: the visual radius is the square-root (distance) or linear
    (position) map of [k / MAX_LINEAR_SPRING_CONSTANT] onto
    [[LINEAR_RESTRAINT_MIN_RADIUS, LINEAR_RESTRAINT_MAX_RADIUS]]. *)
Theorem radius_from_spring_constant (p : Position_Restraint.t) (d : Distance_Restraint.t) :
  Distance_Restraint.radius d
    = sqrt (Distance_Restraint._spring_constant d / MAX_LINEAR_SPRING_CONSTANT)
      * (LINEAR_RESTRAINT_MAX_RADIUS - LINEAR_RESTRAINT_MIN_RADIUS)
      + LINEAR_RESTRAINT_MIN_RADIUS /\
  Position_Restraint.radius p
    = (Position_Restraint._spring_constant p / MAX_LINEAR_SPRING_CONSTANT)
      * (LINEAR_RESTRAINT_MAX_RADIUS - LINEAR_RESTRAINT_MIN_RADIUS)
      + LINEAR_RESTRAINT_MIN_RADIUS.
Proof. split; reflexivity. Qed.

(** Sample atoms: N and CA bonded, O apart; all in structure 0. *)
Definition atom_N : Atom := mkAtom 1 0 7 (0, 0, 0) [(1%nat, 2%nat)].
Definition atom_CA : Atom := mkAtom 2 0 6 (1, 0, 0) [(1%nat, 2%nat)].
Definition atom_O : Atom := mkAtom 3 0 8 (5, 0, 0) [].
Definition atom_H : Atom := mkAtom 4 0 1 (0, 1, 0) [].

Definition sample_position_restraint : Position_Restraint.t :=
  Position_Restraint.mk 10 atom_O (5, 0, 0) 0 false.
Definition sample_distance_restraint : Distance_Restraint.t :=
  Distance_Restraint.mk 11 (atom_N, atom_O) 2 0 false (-1)%Z.

(** C2 (counterexample): [set_k(0)] on a distance restraint whose spring
    constant is already 0 leaves the value as it was, yet records a
    [REASON_SPRING_CONSTANT_CHANGED] event. *)
Lemma set_k_same_value_still_tracked :
  Distance_Restraint._spring_constant (fst (Distance_Restraint.set_k sample_distance_restraint 0))
    = Distance_Restraint._spring_constant sample_distance_restraint /\
  snd (Distance_Restraint.set_k sample_distance_restraint 0)
    = [track_change 11 REASON_SPRING_CONSTANT_CHANGED].
Proof.
  split; [|reflexivity].
  simpl. apply (proj2 (proj2 (clamp_k_spec 0))).
  unfold MAX_LINEAR_SPRING_CONSTANT; lra.
Qed.

(** C2 (amended): [set_enabled] records [REASON_ENABLED_CHANGED] exactly
    when the flag differs from the stored one; [set_target] and [set_k]
    record [REASON_TARGET_CHANGED] / [REASON_SPRING_CONSTANT_CHANGED] on
    every call, whether or not the stored value changes. *)
Theorem setters_track_changes (p : Position_Restraint.t) (d : Distance_Restraint.t)
    (x y z t k : R) (flag : bool) :
  snd (Position_Restraint.set_target p x y z)
    = [track_change (Position_Restraint.ptr p) REASON_TARGET_CHANGED] /\
  snd (Position_Restraint.set_k p k)
    = [track_change (Position_Restraint.ptr p) REASON_SPRING_CONSTANT_CHANGED] /\
  (Position_Restraint._enabled p = flag -> snd (Position_Restraint.set_enabled p flag) = []) /\
  (Position_Restraint._enabled p <> flag ->
     snd (Position_Restraint.set_enabled p flag)
       = [track_change (Position_Restraint.ptr p) REASON_ENABLED_CHANGED]) /\
  snd (Distance_Restraint.set_target d t)
    = [track_change (Distance_Restraint.ptr d) REASON_TARGET_CHANGED] /\
  snd (Distance_Restraint.set_k d k)
    = [track_change (Distance_Restraint.ptr d) REASON_SPRING_CONSTANT_CHANGED] /\
  (Distance_Restraint._enabled d = flag -> snd (Distance_Restraint.set_enabled d flag) = []) /\
  (Distance_Restraint._enabled d <> flag ->
     snd (Distance_Restraint.set_enabled d flag)
       = [track_change (Distance_Restraint.ptr d) REASON_ENABLED_CHANGED]).
Proof.
  unfold Position_Restraint.set_enabled, Distance_Restraint.set_enabled.
  repeat split; intros H; simpl.
  - subst flag. rewrite eqb_reflx. reflexivity.
  - destruct (Bool.eqb (Position_Restraint._enabled p) flag) eqn:E; [|reflexivity].
    apply Bool.eqb_prop in E. contradiction.
  - subst flag. rewrite eqb_reflx. reflexivity.
  - destruct (Bool.eqb (Distance_Restraint._enabled d) flag) eqn:E; [|reflexivity].
    apply Bool.eqb_prop in E. contradiction.
Qed.

(** C2 (witness): disabling an enabled restraint records one event, and
    writing the stored flag records none. *)
Lemma setters_track_changes_witness :
  snd (Position_Restraint.set_enabled sample_position_restraint false) = [] /\
  snd (Distance_Restraint.set_enabled sample_distance_restraint true)
    = [track_change 11 REASON_ENABLED_CHANGED].
Proof.
  destruct (setters_track_changes sample_position_restraint sample_distance_restraint
              0 0 0 2 0 false) as [_ [_ [Hp [_ [_ [_ [_ _]]]]]]].
  destruct (setters_track_changes sample_position_restraint sample_distance_restraint
              0 0 0 2 0 true) as [_ [_ [_ [_ [_ [_ [_ Hd]]]]]]].
  split; [apply Hp; reflexivity | apply Hd; discriminate].
Defined.

(** C4 (witness): [set_k(-5)] stores 0 and [set_k(50)] stores 50. *)
Lemma set_k_clamps_witness :
  Position_Restraint._spring_constant
    (fst (Position_Restraint.set_k sample_position_restraint (-5))) = 0 /\
  Distance_Restraint._spring_constant
    (fst (Distance_Restraint.set_k sample_distance_restraint 50)) = 50.
Proof.
  split.
  - apply (proj1 (set_k_clamps sample_position_restraint sample_distance_restraint (-5))).
    lra.
  - apply (proj2 (proj2 (set_k_clamps sample_position_restraint sample_distance_restraint 50))).
    unfold MAX_LINEAR_SPRING_CONSTANT; lra.
Defined.

(** C9: two successive [set_enabled(flag)] calls record one
    [REASON_ENABLED_CHANGED] event in total when [flag] differs from the
    initial state (none otherwise); the second call records nothing. *)
Theorem set_enabled_twice_one_event (p : Position_Restraint.t) (d : Distance_Restraint.t)
    (flag : bool) :
  snd (Position_Restraint.set_enabled (fst (Position_Restraint.set_enabled p flag)) flag) = [] /\
  (Position_Restraint._enabled p <> flag ->
     count_reason REASON_ENABLED_CHANGED
       (snd (Position_Restraint.set_enabled p flag)
        ++ snd (Position_Restraint.set_enabled (fst (Position_Restraint.set_enabled p flag)) flag))
     = 1%nat) /\
  snd (Distance_Restraint.set_enabled (fst (Distance_Restraint.set_enabled d flag)) flag) = [] /\
  (Distance_Restraint._enabled d <> flag ->
     count_reason REASON_ENABLED_CHANGED
       (snd (Distance_Restraint.set_enabled d flag)
        ++ snd (Distance_Restraint.set_enabled (fst (Distance_Restraint.set_enabled d flag)) flag))
     = 1%nat).
Proof.
  unfold Position_Restraint.set_enabled, Distance_Restraint.set_enabled.
  destruct p as [pp pa pt pk pe]; destruct d as [dp da dt dk de ds]; simpl.
  destruct pe, de, flag; simpl; repeat split; intros H; try reflexivity; congruence.
Qed.

(** C9 (witness): enabling a disabled restraint twice. *)
Lemma set_enabled_twice_one_event_witness :
  count_reason REASON_ENABLED_CHANGED
    (snd (Distance_Restraint.set_enabled sample_distance_restraint true)
     ++ snd (Distance_Restraint.set_enabled
               (fst (Distance_Restraint.set_enabled sample_distance_restraint true)) true))
  = 1%nat.
Proof.
  apply (proj2 (proj2 (proj2 (set_enabled_twice_one_event sample_position_restraint
                                 sample_distance_restraint true)))).
  discriminate.
Defined.

(* ------------------------------------------------------------------ *)
(** ** Distance target floor *)

Lemma step_target_floor (r : Distance_Restraint.t) (o : Distance_Restraint.op) :
  MIN_DISTANCE_RESTRAINT_TARGET <= Distance_Restraint._target r ->
  MIN_DISTANCE_RESTRAINT_TARGET <= Distance_Restraint._target (Distance_Restraint.step r o).
Proof.
  intros H. destruct o as [x|k|b|i|]; simpl; try exact H.
  - destruct (Rlt_dec x MIN_DISTANCE_RESTRAINT_TARGET); simpl; lra.
  - unfold Distance_Restraint.set_enabled.
    destruct (negb (Bool.eqb (Distance_Restraint._enabled r) b)); exact H.
Qed.

Lemma run_target_floor (os : list Distance_Restraint.op) (r : Distance_Restraint.t) :
  MIN_DISTANCE_RESTRAINT_TARGET <= Distance_Restraint._target r ->
  MIN_DISTANCE_RESTRAINT_TARGET <= Distance_Restraint._target (Distance_Restraint.run r os).
Proof.
  revert r. induction os as [|o os IH]; intros r H; simpl; [exact H|].
  apply IH. apply step_target_floor. exact H.
Qed.

Lemma construct5_target_floor p a1 a2 init target k r log :
  Distance_Restraint.construct5 p a1 a2 init target k = inl (r, log) ->
  MIN_DISTANCE_RESTRAINT_TARGET <= Distance_Restraint._target r.
Proof.
  unfold Distance_Restraint.construct5, Distance_Restraint.construct3.
  destruct (Distance_Restraint.bonded_to a1 a2); [discriminate|].
  destruct init as [[t0 k0] e0]. simpl.
  unfold Distance_Restraint.set_enabled; simpl.
  destruct (negb (Bool.eqb e0 false)); intros Heq; injection Heq; intros _ <-; simpl;
    destruct (Rlt_dec target MIN_DISTANCE_RESTRAINT_TARGET); simpl; lra.
Qed.

(** C7: [set_target(t)] stores [t] when [t >= MIN_DISTANCE_RESTRAINT_TARGET]
    and the floor otherwise; the floor holds after construction and is kept
    by every sequence of setter and simulation-index operations. *)
Theorem distance_target_floor (r : Distance_Restraint.t) (t : R)
    (os : list Distance_Restraint.op) :
  (MIN_DISTANCE_RESTRAINT_TARGET <= t ->
     Distance_Restraint._target (fst (Distance_Restraint.set_target r t)) = t) /\
  (t < MIN_DISTANCE_RESTRAINT_TARGET ->
     Distance_Restraint._target (fst (Distance_Restraint.set_target r t))
       = MIN_DISTANCE_RESTRAINT_TARGET) /\
  (forall p a1 a2 init target k r0 log,
     Distance_Restraint.construct5 p a1 a2 init target k = inl (r0, log) ->
     MIN_DISTANCE_RESTRAINT_TARGET <= Distance_Restraint._target r0) /\
  (MIN_DISTANCE_RESTRAINT_TARGET <= Distance_Restraint._target r ->
     MIN_DISTANCE_RESTRAINT_TARGET <= Distance_Restraint._target (Distance_Restraint.run r os)).
Proof.
  split; [|split; [|split]].
  - intros H. simpl. destruct (Rlt_dec t MIN_DISTANCE_RESTRAINT_TARGET); [lra | reflexivity].
  - intros H. simpl. destruct (Rlt_dec t MIN_DISTANCE_RESTRAINT_TARGET); [reflexivity | lra].
  - exact construct5_target_floor.
  - apply run_target_floor.
Qed.

(** C7 (witness): the sample restraint (target 2) keeps its floor through
    a [set_target(0.5)] and a [set_k(3)]. *)
Lemma distance_target_floor_witness :
  MIN_DISTANCE_RESTRAINT_TARGET
    <= Distance_Restraint._target
         (Distance_Restraint.run sample_distance_restraint
            [Distance_Restraint.OpSetTarget (1 / 2); Distance_Restraint.OpSetK 3]) /\
  Distance_Restraint._target (fst (Distance_Restraint.set_target sample_distance_restraint (1 / 2)))
    = MIN_DISTANCE_RESTRAINT_TARGET.
Proof.
  split.
  - apply (proj2 (proj2 (proj2 (distance_target_floor sample_distance_restraint 0
             [Distance_Restraint.OpSetTarget (1 / 2); Distance_Restraint.OpSetK 3])))).
    unfold MIN_DISTANCE_RESTRAINT_TARGET; simpl; lra.
  - apply (proj1 (proj2 (distance_target_floor sample_distance_restraint (1 / 2) []))).
    unfold MIN_DISTANCE_RESTRAINT_TARGET; lra.
Defined.

(* ------------------------------------------------------------------ *)
(** ** [get_restraint] *)

Lemma clamp_k_zero : clamp_k 0 = 0.
Proof.
  apply (proj2 (proj2 (clamp_k_spec 0))). unfold MAX_LINEAR_SPRING_CONSTANT; lra.
Qed.

Lemma set_enabled_false_disables (r : Distance_Restraint.t) :
  Distance_Restraint._enabled (fst (Distance_Restraint.set_enabled r false)) = false.
Proof.
  unfold Distance_Restraint.set_enabled.
  destruct (Distance_Restraint._enabled r) eqn:E; simpl; [reflexivity | exact E].
Qed.

Lemma pos_get_restraint_created (m : Position_Restraint_Mgr) (atom : Atom) :
  alist_find Nat.eq_dec (atom_ptr atom) (pm_atom_to_restraint m) = None ->
  atom_structure atom = pm_atomic_model m ->
  atom_element_number atom <> 1%nat ->
  exists m' r log,
    pos_get_restraint m atom true = inl (m', Some r, log) /\
    Position_Restraint._spring_constant r = 0 /\
    Position_Restraint._enabled r = false /\
    Position_Restraint._target r = atom_coord atom /\
    Position_Restraint._atom r = atom /\
    alist_find Nat.eq_dec (atom_ptr atom) (pm_atom_to_restraint m') = Some r.
Proof.
  intros Hnone Hs Hh.
  unfold pos_get_restraint, pos_new_restraint, pos_new_restraint_at.
  rewrite Hnone, Hs, Nat.eqb_refl. simpl.
  apply Nat.eqb_neq in Hh. rewrite Hh.
  destruct (atom_coord atom) as [[x y] z] eqn:Hc. simpl.
  eexists; eexists; eexists. split; [reflexivity|].
  simpl. split; [reflexivity|]. split; [reflexivity|].
  split; [reflexivity|]. split; [reflexivity|].
  apply alist_find_set_eq.
Qed.

Lemma dist_get_restraint_created (m : Distance_Restraint_Mgr) (a1 a2 : Atom)
    (init : R * R * bool) (target : R) :
  find (same_pair a1 a2) (dm_restraints m) = None ->
  atom_structure a1 = dm_structure m ->
  atom_structure a2 = dm_structure m ->
  Distance_Restraint.bonded_to a1 a2 = false ->
  exists m' r log,
    dist_get_restraint m a1 a2 true init target = inl (m', Some r, log) /\
    Distance_Restraint._spring_constant r = 0 /\
    Distance_Restraint._enabled r = false /\
    Distance_Restraint._atoms r = (a1, a2) /\
    In r (dm_restraints m').
Proof.
  intros Hnone H1 H2 Hb.
  unfold dist_get_restraint. rewrite Hnone, H1, H2, Nat.eqb_refl. simpl.
  unfold Distance_Restraint.construct5, Distance_Restraint.construct3.
  rewrite Hb. destruct init as [[t0 k0] e0]. simpl.
  set (r2 := Distance_Restraint.with_k _ (clamp_k 0)).
  destruct (Distance_Restraint.set_enabled r2 false) as [r3 l3] eqn:E3.
  eexists; eexists; eexists. split; [reflexivity|].
  assert (Hen : Distance_Restraint._enabled r3 = false).
  { pose proof (set_enabled_false_disables r2) as H. rewrite E3 in H. exact H. }
  assert (Hsame : Distance_Restraint._spring_constant r3 = clamp_k 0 /\
                  Distance_Restraint._atoms r3 = (a1, a2)).
  { unfold Distance_Restraint.set_enabled in E3.
    destruct (negb (Bool.eqb (Distance_Restraint._enabled r2) false));
      injection E3; intros _ <-; split; reflexivity. }
  destruct Hsame as [Hk Ha].
  split; [rewrite Hk; exact clamp_k_zero|].
  split; [exact Hen|]. split; [exact Ha|]. simpl. left. reflexivity.
Qed.

(** C3: [get_restraint] returns an existing restraint; with [create]
    false and none present it returns [nullptr] without error; with
    [create] true and none present it throws [logic_error] when an atom is
    in another structure, when the (position) atom is a hydrogen, or when
    the (distance) atoms are bonded, and otherwise creates and indexes a
    restraint with spring constant 0, disabled, whose position target is
    the atom's current coordinate. *)
Theorem get_restraint_spec (m : Position_Restraint_Mgr) (atom : Atom) (create : bool)
    (dm : Distance_Restraint_Mgr) (a1 a2 : Atom) (init : R * R * bool) (target : R) :
  (forall r, alist_find Nat.eq_dec (atom_ptr atom) (pm_atom_to_restraint m) = Some r ->
     pos_get_restraint m atom create = inl (m, Some r, [])) /\
  (alist_find Nat.eq_dec (atom_ptr atom) (pm_atom_to_restraint m) = None ->
     pos_get_restraint m atom false = inl (m, None, [])) /\
  (alist_find Nat.eq_dec (atom_ptr atom) (pm_atom_to_restraint m) = None ->
     atom_structure atom <> pm_atomic_model m ->
     pos_get_restraint m atom true = inr (logic_error error_different_mol)) /\
  (alist_find Nat.eq_dec (atom_ptr atom) (pm_atom_to_restraint m) = None ->
     atom_structure atom = pm_atomic_model m ->
     atom_element_number atom = 1%nat ->
     pos_get_restraint m atom true = inr (logic_error error_hydrogen)) /\
  (alist_find Nat.eq_dec (atom_ptr atom) (pm_atom_to_restraint m) = None ->
     atom_structure atom = pm_atomic_model m ->
     atom_element_number atom <> 1%nat ->
     exists m' r log,
       pos_get_restraint m atom true = inl (m', Some r, log) /\
       Position_Restraint._spring_constant r = 0 /\
       Position_Restraint._enabled r = false /\
       Position_Restraint._target r = atom_coord atom /\
       Position_Restraint._atom r = atom /\
       alist_find Nat.eq_dec (atom_ptr atom) (pm_atom_to_restraint m') = Some r) /\
  (forall r, find (same_pair a1 a2) (dm_restraints dm) = Some r ->
     dist_get_restraint dm a1 a2 create init target = inl (dm, Some r, [])) /\
  (find (same_pair a1 a2) (dm_restraints dm) = None ->
     dist_get_restraint dm a1 a2 false init target = inl (dm, None, [])) /\
  (find (same_pair a1 a2) (dm_restraints dm) = None ->
     (atom_structure a1 <> dm_structure dm \/ atom_structure a2 <> dm_structure dm) ->
     dist_get_restraint dm a1 a2 true init target = inr (logic_error error_different_mol)) /\
  (find (same_pair a1 a2) (dm_restraints dm) = None ->
     atom_structure a1 = dm_structure dm -> atom_structure a2 = dm_structure dm ->
     Distance_Restraint.bonded_to a1 a2 = true ->
     dist_get_restraint dm a1 a2 true init target
       = inr (logic_error Distance_Restraint.err_msg_bonded)) /\
  (find (same_pair a1 a2) (dm_restraints dm) = None ->
     atom_structure a1 = dm_structure dm -> atom_structure a2 = dm_structure dm ->
     Distance_Restraint.bonded_to a1 a2 = false ->
     exists dm' r log,
       dist_get_restraint dm a1 a2 true init target = inl (dm', Some r, log) /\
       Distance_Restraint._spring_constant r = 0 /\
       Distance_Restraint._enabled r = false /\
       Distance_Restraint._atoms r = (a1, a2) /\
       In r (dm_restraints dm')).
Proof.
  split; [|split; [|split; [|split; [|split; [|split; [|split; [|split; [|split]]]]]]]].
  - intros r Hr. unfold pos_get_restraint. rewrite Hr. reflexivity.
  - intros Hn. unfold pos_get_restraint. rewrite Hn. reflexivity.
  - intros Hn Hs. unfold pos_get_restraint, pos_new_restraint, pos_new_restraint_at.
    rewrite Hn. apply Nat.eqb_neq in Hs. rewrite Hs. reflexivity.
  - intros Hn Hs Hh. unfold pos_get_restraint, pos_new_restraint, pos_new_restraint_at.
    rewrite Hn, Hs, Nat.eqb_refl, Hh. reflexivity.
  - apply pos_get_restraint_created.
  - intros r Hr. unfold dist_get_restraint. rewrite Hr. reflexivity.
  - intros Hn. unfold dist_get_restraint. rewrite Hn. reflexivity.
  - intros Hn Hs. unfold dist_get_restraint. rewrite Hn. simpl.
    destruct Hs as [Hs|Hs]; apply Nat.eqb_neq in Hs; rewrite Hs;
      [reflexivity | rewrite andb_false_r; reflexivity].
  - intros Hn H1 H2 Hb. unfold dist_get_restraint. rewrite Hn, H1, H2, Nat.eqb_refl. simpl.
    unfold Distance_Restraint.construct5, Distance_Restraint.construct3. rewrite Hb.
    reflexivity.
  - apply dist_get_restraint_created.
Qed.

Definition empty_position_mgr : Position_Restraint_Mgr := mkPosition_Restraint_Mgr 0 [] 20.
Definition empty_distance_mgr : Distance_Restraint_Mgr := mkDistance_Restraint_Mgr 0 [] 30.

(** A manager of model 0 holding [sample_position_restraint] on the oxygen. *)
Definition sample_position_mgr : Position_Restraint_Mgr :=
  mkPosition_Restraint_Mgr 0%nat [(3%nat, sample_position_restraint)] 21%nat.

(** C3 (witness): a hydrogen position restraint and a restraint between
    the bonded N and CA are refused; a disabled, zero-k restraint on O is
    created at O's coordinate. *)
Lemma get_restraint_spec_witness :
  pos_get_restraint empty_position_mgr atom_H true = inr (logic_error error_hydrogen) /\
  dist_get_restraint empty_distance_mgr atom_N atom_CA true (1, 0, false) 2
    = inr (logic_error Distance_Restraint.err_msg_bonded) /\
  (exists m' r log,
     pos_get_restraint empty_position_mgr atom_O true = inl (m', Some r, log) /\
     Position_Restraint._spring_constant r = 0 /\
     Position_Restraint._enabled r = false /\
     Position_Restraint._target r = atom_coord atom_O /\
     Position_Restraint._atom r = atom_O /\
     alist_find Nat.eq_dec (atom_ptr atom_O) (pm_atom_to_restraint m') = Some r).
Proof.
  destruct (get_restraint_spec empty_position_mgr atom_H true empty_distance_mgr
              atom_N atom_CA (1, 0, false) 2)
    as [_ [_ [_ [Hh [_ [_ [_ [_ [Hb _]]]]]]]]].
  destruct (get_restraint_spec empty_position_mgr atom_O true empty_distance_mgr
              atom_N atom_CA (1, 0, false) 2)
    as [_ [_ [_ [_ [Hc _]]]]].
  split; [apply Hh; reflexivity|].
  split; [apply Hb; reflexivity|].
  apply Hc; [reflexivity | reflexivity | discriminate].
Defined.

(* ------------------------------------------------------------------ *)
(** ** Dihedral target wrapping *)

Lemma up_minus_one_floor (z : R) : IZR (up z - 1) <= z < IZR (up z - 1) + 1.
Proof.
  destruct (archimed z) as [Hgt Hle]. rewrite minus_IZR. lra.
Qed.

Lemma round_half_even_close (z : R) :
  - (1 / 2) <= z - IZR (round_half_even z) <= 1 / 2.
Proof.
  pose proof (up_minus_one_floor z) as Hf.
  unfold round_half_even.
  set (f := (up z - 1)%Z) in *.
  destruct (Rlt_dec (z - IZR f) (1 / 2)) as [Hlt|Hnlt]; [lra|].
  destruct (Rlt_dec (1 / 2) (z - IZR f)) as [Hgt|Hngt].
  - rewrite plus_IZR. lra.
  - destruct (Z.even f); [lra|]. rewrite plus_IZR. lra.
Qed.

Lemma remainder_bounds (x y : R) : 0 < y -> - (y / 2) <= remainder x y <= y / 2.
Proof.
  intros Hy. unfold remainder.
  pose proof (round_half_even_close (x / y)) as [Hlo Hhi].
  set (n := IZR (round_half_even (x / y))) in *.
  assert (Heq : x - n * y = y * (x / y - n)) by (field; lra).
  rewrite Heq. split.
  - apply Rle_trans with (y * (- (1 / 2))); [lra|].
    apply Rmult_le_compat_l; lra.
  - apply Rle_trans with (y * (1 / 2)); [|lra].
    apply Rmult_le_compat_l; lra.
Qed.

Lemma remainder_multiple (x y : R) : exists k : Z, remainder x y - x = IZR k * y.
Proof.
  exists (- round_half_even (x / y))%Z. unfold remainder.
  rewrite opp_IZR. ring.
Qed.

Lemma TWO_PI_pos : 0 < TWO_PI.
Proof. unfold TWO_PI. pose proof PI_RGT_0. lra. Qed.

Definition sample_dihedral_angles : Dihedral_angles := mkDihedral_angles 0 0.

(** C5 (counterexample): [set_target(-pi)] stores [-pi] itself
    ([remainder] rounds the quotient -1/2 to the even integer 0), which is
    outside (-pi, pi]. *)
Lemma set_target_minus_pi_stays :
  dihedral_target (dihedral_set_target sample_dihedral_angles (- PI)) = - PI /\
  ~ (- PI < dihedral_target (dihedral_set_target sample_dihedral_angles (- PI))).
Proof.
  assert (Hq : - PI / TWO_PI = - (1 / 2)).
  { unfold TWO_PI. field. apply PI_neq0. }
  assert (Hup : up (- (1 / 2)) = 0%Z).
  { symmetry. apply tech_up; simpl; lra. }
  assert (Hr : round_half_even (- PI / TWO_PI) = 0%Z).
  { rewrite Hq. unfold round_half_even. rewrite Hup. simpl.
    destruct (Rlt_dec (- (1 / 2) - -1) (1 / 2)) as [H|H]; [lra|].
    destruct (Rlt_dec (1 / 2) (- (1 / 2) - -1)) as [H'|H']; [lra|].
    reflexivity. }
  assert (Hv : dihedral_target (dihedral_set_target sample_dihedral_angles (- PI)) = - PI).
  { unfold dihedral_target, dihedral_set_target, remainder. simpl.
    rewrite Hr. simpl. ring. }
  split; [exact Hv|]. rewrite Hv. lra.
Qed.

(** C5 (amended): [set_target(x)] followed by [target()] gives a value in
    the closed interval [-pi, pi] that differs from [x] by an integer
    multiple of 2*pi. *)
Theorem set_target_wraps (d : Dihedral_angles) (x : R) :
  - PI <= dihedral_target (dihedral_set_target d x) <= PI /\
  exists k : Z, dihedral_target (dihedral_set_target d x) - x = IZR k * TWO_PI.
Proof.
  unfold dihedral_target, dihedral_set_target. simpl. split.
  - pose proof (remainder_bounds x TWO_PI TWO_PI_pos) as H.
    unfold TWO_PI in *. lra.
  - apply remainder_multiple.
Qed.

(* ================================================================== *)
(** * Further properties of the embedded code *)

Local Close Scope R_scope.

(* ------------------------------------------------------------------ *)
(** ** [Dihedral_Mgr::add_dihedral] and the residue index *)

Lemma count_dmap_set (k : string) (v : Dihedral) (dm : Dmap) :
  count_dmap (alist_set string_dec k v dm)
  = count_dmap dm + match alist_find string_dec k dm with Some _ => 0 | None => 1 end.
Proof.
  induction dm as [|[k' v'] rest IH]; simpl.
  - destruct (string_dec k k); [reflexivity | contradiction].
  - destruct (string_dec k k'); simpl; [lia | rewrite IH; lia].
Qed.

Lemma num_mapped_rmap_set (r : nat) (dm' : Dmap) (rm : Rmap) :
  num_mapped_rmap (alist_set Nat.eq_dec r dm' rm)
  + match alist_find Nat.eq_dec r rm with Some dm => count_dmap dm | None => 0 end
  = num_mapped_rmap rm + count_dmap dm'.
Proof.
  induction rm as [|[r' dm] rest IH]; simpl.
  - destruct (Nat.eq_dec r r); [simpl; lia | contradiction].
  - destruct (Nat.eq_dec r r'); simpl; lia.
Qed.

Lemma add_dihedral_indexed_map (m : Dihedral_Mgr) (d : Dihedral) (r : nat) :
  dh_residue d = Some r -> dh_name d <> ""%string ->
  _residue_map (add_dihedral m d)
  = match alist_find Nat.eq_dec r (_residue_map m) with
    | Some dm => alist_set Nat.eq_dec r (alist_set string_dec (dh_name d) d dm : Dmap)
                   (_residue_map m)
    | None => alist_set Nat.eq_dec r (alist_set string_dec (dh_name d) d [] : Dmap)
                (alist_set Nat.eq_dec r ([] : Dmap) (_residue_map m))
    end.
Proof.
  intros Hr Hn. unfold add_dihedral, alist_index. rewrite Hr.
  apply String.eqb_neq in Hn. rewrite Hn.
  destruct (alist_find Nat.eq_dec r (_residue_map m)); reflexivity.
Qed.

(** X1: [add_dihedral] of a dihedral with a residue [r] and a non-empty
    name indexes it under (r, name), replacing any previous entry there,
    and leaves every other (residue, name) entry as it was. *)
Theorem add_dihedral_index_roundtrip (m : Dihedral_Mgr) (d : Dihedral) (r : nat) :
  dh_residue d = Some r -> dh_name d <> ""%string ->
  residue_map_lookup (add_dihedral m d) r (dh_name d) = Some d /\
  (forall r' n', (r', n') <> (r, dh_name d) ->
     residue_map_lookup (add_dihedral m d) r' n' = residue_map_lookup m r' n').
Proof.
  intros Hr Hn. unfold residue_map_lookup.
  rewrite (add_dihedral_indexed_map m d r Hr Hn).
  destruct (alist_find Nat.eq_dec r (_residue_map m)) as [dm|] eqn:Hf.
  - split.
    + rewrite alist_find_set_eq, alist_find_set_eq. reflexivity.
    + intros r' n' Hne. destruct (Nat.eq_dec r' r) as [->|Hr'].
      * rewrite alist_find_set_eq, Hf, alist_find_set_neq by congruence. reflexivity.
      * rewrite alist_find_set_neq by exact Hr'. reflexivity.
  - split.
    + rewrite alist_find_set_eq, alist_find_set_eq. reflexivity.
    + intros r' n' Hne. destruct (Nat.eq_dec r' r) as [->|Hr'].
      * rewrite alist_find_set_eq, Hf, alist_find_set_neq by congruence. reflexivity.
      * rewrite !alist_find_set_neq by exact Hr'. reflexivity.
Qed.

(** X1 (witness). *)
Lemma add_dihedral_index_roundtrip_witness :
  residue_map_lookup (add_dihedral empty_Dihedral_Mgr phi_dihedral) 7 "phi" = Some phi_dihedral.
Proof.
  exact (proj1 (add_dihedral_index_roundtrip empty_Dihedral_Mgr phi_dihedral 7
                  eq_refl ltac:(discriminate))).
Defined.

(** X2: a dihedral with no residue, or with an empty name, is kept in the
    owned list but never enters the (residue, name) index. *)
Theorem add_dihedral_unindexed (m : Dihedral_Mgr) (d : Dihedral) :
  (dh_residue d = None \/ dh_name d = ""%string) ->
  _residue_map (add_dihedral m d) = _residue_map m /\
  stored d (_dihedrals (add_dihedral m d)) = true.
Proof.
  intros H. split.
  - unfold add_dihedral.
    destruct H as [H|H]; rewrite H; [reflexivity|].
    destruct (dh_residue d); reflexivity.
  - rewrite add_dihedral_list.
    destruct (stored d (_dihedrals m)) eqn:Hs; [exact Hs|].
    apply stored_in. rewrite map_app. apply in_or_app. right. left. reflexivity.
Qed.

(** X2 (witness). *)
Lemma add_dihedral_unindexed_witness :
  _residue_map (add_dihedral empty_Dihedral_Mgr (mkDihedral 5 [1; 2; 3; 4] None "chi1"))
    = [].
Proof.
  exact (proj1 (add_dihedral_unindexed empty_Dihedral_Mgr (mkDihedral 5 [1; 2; 3; 4] None "chi1")
                  (or_introl eq_refl))).
Defined.

(** X3: indexing a dihedral under a fresh (residue, name) pair raises
    [num_mapped_dihedrals()] by one; under a pair already mapped it
    replaces the entry and the count stays. *)
Theorem add_dihedral_num_mapped (m : Dihedral_Mgr) (d : Dihedral) (r : nat) :
  dh_residue d = Some r -> dh_name d <> ""%string ->
  num_mapped_dihedrals (add_dihedral m d)
  = num_mapped_dihedrals m
    + match residue_map_lookup m r (dh_name d) with Some _ => 0 | None => 1 end.
Proof.
  intros Hr Hn. unfold num_mapped_dihedrals, residue_map_lookup.
  rewrite (add_dihedral_indexed_map m d r Hr Hn).
  destruct (alist_find Nat.eq_dec r (_residue_map m)) as [dm|] eqn:Hf; cbn iota beta.
  - pose proof (num_mapped_rmap_set r (alist_set string_dec (dh_name d) d dm) (_residue_map m))
      as H. rewrite Hf, count_dmap_set in H. lia.
  - pose proof (num_mapped_rmap_set r (alist_set string_dec (dh_name d) d [])
                  (alist_set Nat.eq_dec r ([] : Dmap) (_residue_map m))) as H.
    rewrite alist_find_set_eq in H.
    change (count_dmap (alist_set string_dec (dh_name d) d [])) with 1 in H.
    change (count_dmap []) with 0 in H.
    pose proof (num_mapped_rmap_set r [] (_residue_map m)) as H0.
    rewrite Hf in H0. change (count_dmap []) with 0 in H0. lia.
Qed.

(** X3 (witness). *)
Lemma add_dihedral_num_mapped_witness :
  num_mapped_dihedrals (add_dihedral phi_mgr (mkDihedral 101 [2; 3; 4; 5] (Some 7) "psi"))
  = num_mapped_dihedrals phi_mgr + 1.
Proof.
  exact (add_dihedral_num_mapped phi_mgr (mkDihedral 101 [2; 3; 4; 5] (Some 7) "psi") 7
           eq_refl ltac:(discriminate)).
Defined.

(* ------------------------------------------------------------------ *)
(** ** Composing [Dihedral_Mgr::destructors_done] *)

Lemma set_contains_app (D1 D2 : list void_ptr) (p : void_ptr) :
  set_contains (D1 ++ D2) p = set_contains D1 p || set_contains D2 p.
Proof.
  unfold set_contains.
  destruct (in_dec void_ptr_eq_dec p (D1 ++ D2)) as [H|H];
  destruct (in_dec void_ptr_eq_dec p D1) as [H1|H1];
  destruct (in_dec void_ptr_eq_dec p D2) as [H2|H2]; simpl; auto;
  try (apply in_app_or in H; tauto);
  exfalso; apply H; apply in_or_app; tauto.
Qed.

Lemma set_contains_nil (p : void_ptr) : set_contains [] p = false.
Proof. reflexivity. Qed.

Lemma purge_dmap_compose (D1 D2 : list void_ptr) (dm : Dmap) :
  purge_dmap D2 (purge_dmap D1 dm) = purge_dmap (D1 ++ D2) dm.
Proof.
  induction dm as [|[n d] rest IH]; simpl; [reflexivity|].
  rewrite set_contains_app.
  destruct (set_contains D1 (PDihedral (dh_ptr d))); simpl; [exact IH|].
  destruct (set_contains D2 (PDihedral (dh_ptr d))); simpl; rewrite IH; reflexivity.
Qed.

Lemma purge_rmap_compose (D1 D2 : list void_ptr) (rm : Rmap) :
  purge_rmap D2 (purge_rmap D1 rm) = purge_rmap (D1 ++ D2) rm.
Proof.
  induction rm as [|[r dm] rest IH]; simpl; [reflexivity|].
  rewrite set_contains_app.
  destruct (set_contains D1 (PResidue r)); simpl; [exact IH|].
  destruct (set_contains D2 (PResidue r)); simpl; rewrite IH; [reflexivity|].
  rewrite purge_dmap_compose. reflexivity.
Qed.

Lemma filter_compose_dihedrals (D1 D2 : list void_ptr) (ds : list Dihedral) :
  filter (fun d => negb (set_contains D2 (PDihedral (dh_ptr d))))
    (filter (fun d => negb (set_contains D1 (PDihedral (dh_ptr d)))) ds)
  = filter (fun d => negb (set_contains (D1 ++ D2) (PDihedral (dh_ptr d)))) ds.
Proof.
  induction ds as [|d rest IH]; simpl; [reflexivity|].
  rewrite set_contains_app.
  destruct (set_contains D1 (PDihedral (dh_ptr d))); simpl; [exact IH|].
  destruct (set_contains D2 (PDihedral (dh_ptr d))); simpl; rewrite IH; reflexivity.
Qed.

Lemma purge_dmap_nil (dm : Dmap) : purge_dmap [] dm = dm.
Proof. induction dm as [|[n d] rest IH]; simpl; [reflexivity | rewrite IH; reflexivity]. Qed.

Lemma destructors_done_ext (m : Dihedral_Mgr) (D1 D2 : list void_ptr) :
  (forall p, set_contains D1 p = set_contains D2 p) ->
  destructors_done m D1 = destructors_done m D2.
Proof.
  intros H.
  assert (Hd : forall dm : Dmap, purge_dmap D1 dm = purge_dmap D2 dm).
  { induction dm as [|[n d] dr IHd]; simpl; [reflexivity|].
    rewrite H, IHd. reflexivity. }
  unfold destructors_done. f_equal.
  - induction (_residue_map m) as [|[r dm] rest IH]; simpl; [reflexivity|].
    rewrite H, IH, Hd. reflexivity.
  - apply filter_ext. intros d. rewrite H. reflexivity.
Qed.

(** X4: two destruction notifications in a row purge the manager exactly
    as one notification of both sets; in particular repeating a
    notification changes nothing, and an empty notification is a no-op. *)
Theorem destructors_done_compose (m : Dihedral_Mgr) (D1 D2 : list void_ptr) :
  destructors_done (destructors_done m D1) D2 = destructors_done m (D1 ++ D2) /\
  destructors_done (destructors_done m D1) D1 = destructors_done m D1 /\
  destructors_done m [] = m.
Proof.
  assert (Hc : forall D, destructors_done (destructors_done m D) D2
                         = destructors_done m (D ++ D2)).
  { intros D. unfold destructors_done at 1. unfold destructors_done. simpl.
    rewrite purge_rmap_compose, filter_compose_dihedrals. reflexivity. }
  split; [apply Hc|]. split.
  - unfold destructors_done at 1. unfold destructors_done. simpl.
    rewrite purge_rmap_compose, filter_compose_dihedrals.
    apply (destructors_done_ext m (D1 ++ D1) D1).
    intros p. rewrite set_contains_app. destruct (set_contains D1 p); reflexivity.
  - clear Hc. destruct m as [rm nm ds]. unfold destructors_done; simpl. f_equal.
    + induction rm as [|[r dm] rest IH]; [reflexivity|].
      cbn [purge_rmap]. rewrite set_contains_nil, IH, purge_dmap_nil. reflexivity.
    + induction ds as [|d rest IH]; [reflexivity|].
      cbn [filter]. rewrite IH. reflexivity.
Qed.

Lemma purge_rmap_find (D : list void_ptr) (rm : Rmap) (r : nat) :
  alist_find Nat.eq_dec r (purge_rmap D rm)
  = if set_contains D (PResidue r) then None
    else match alist_find Nat.eq_dec r rm with
         | Some dm => Some (purge_dmap D dm)
         | None => None
         end.
Proof.
  induction rm as [|[r' dm] rest IH]; simpl.
  - destruct (set_contains D (PResidue r)); reflexivity.
  - destruct (Nat.eq_dec r r') as [->|Hne].
    + destruct (set_contains D (PResidue r')) eqn:E; [exact IH|].
      simpl. destruct (Nat.eq_dec r' r'); [reflexivity | contradiction].
    + destruct (set_contains D (PResidue r')); [exact IH|].
      simpl. destruct (Nat.eq_dec r r'); [contradiction | exact IH].
Qed.

(** X5: after [destructors_done], a destroyed residue has no entry left,
    while a surviving residue keeps its entry holding exactly its
    surviving dihedrals (possibly none); [size()] counts the surviving
    residue entries. *)
Theorem destructors_done_residue_entries (m : Dihedral_Mgr) (destroyed : list void_ptr) (r : nat) :
  alist_find Nat.eq_dec r (_residue_map (destructors_done m destroyed))
  = (if set_contains destroyed (PResidue r) then None
     else match alist_find Nat.eq_dec r (_residue_map m) with
          | Some dm => Some (purge_dmap destroyed dm)
          | None => None
          end) /\
  dihedral_mgr_size (destructors_done m destroyed)
  = List.length (filter (fun rd => negb (set_contains destroyed (PResidue (fst rd))))
                   (_residue_map m)).
Proof.
  split; [apply purge_rmap_find|].
  unfold dihedral_mgr_size, destructors_done; simpl.
  induction (_residue_map m) as [|[r' dm] rest IH]; simpl; [reflexivity|].
  destruct (set_contains destroyed (PResidue r')); simpl; [exact IH | rewrite IH; reflexivity].
Qed.

(* ------------------------------------------------------------------ *)
(** ** [Position_Restraint_Mgr_Base]: creation, lookup, deletion *)

Lemma alist_set_length {K V : Type} (K_eq_dec : forall x y : K, {x = y} + {x <> y})
    (k : K) (v : V) (l : list (K * V)) :
  List.length (alist_set K_eq_dec k v l)
  = List.length l + (match alist_find K_eq_dec k l with Some _ => 0 | None => 1 end).
Proof.
  induction l as [|[k' v'] rest IH]; simpl; [reflexivity|].
  destruct (K_eq_dec k k'); simpl; [lia | rewrite IH; lia].
Qed.

Lemma alist_set_snd_absent {K V : Type} (K_eq_dec : forall x y : K, {x = y} + {x <> y})
    (k : K) (v : V) (l : list (K * V)) :
  alist_find K_eq_dec k l = None ->
  map snd (alist_set K_eq_dec k v l) = map snd l ++ [v].
Proof.
  induction l as [|[k' v'] rest IH]; simpl; [reflexivity|].
  destruct (K_eq_dec k k'); [discriminate|]. intros H. simpl. rewrite IH; auto.
Qed.

Lemma alist_set_Forall {K V : Type} (K_eq_dec : forall x y : K, {x = y} + {x <> y})
    (P : K * V -> Prop) (k : K) (v : V) (l : list (K * V)) :
  Forall P l -> P (k, v) -> Forall P (alist_set K_eq_dec k v l).
Proof.
  intros Hl Hkv. induction Hl as [|[k' v'] rest Hp Hr IH]; simpl.
  - constructor; [exact Hkv | constructor].
  - destruct (K_eq_dec k k') as [->|]; constructor; auto.
Qed.

Lemma alist_find_filter_key {V : Type} (f : nat -> bool) (k : nat) (l : list (nat * V)) :
  alist_find Nat.eq_dec k (filter (fun kv => negb (f (fst kv))) l)
  = if f k then None else alist_find Nat.eq_dec k l.
Proof.
  induction l as [|[k' v'] rest IH]; simpl; [destruct (f k); reflexivity|].
  destruct (f k') eqn:E; simpl.
  - rewrite IH. destruct (Nat.eq_dec k k') as [->|]; [rewrite E; reflexivity | reflexivity].
  - destruct (Nat.eq_dec k k') as [->|]; [rewrite E; reflexivity | exact IH].
Qed.

Lemma fold_erase_filter (rs : list Position_Restraint.t) (l : list (nat * Position_Restraint.t)) :
  fold_left (fun map r => alist_erase Nat.eq_dec (atom_ptr (Position_Restraint._atom r)) map) rs l
  = filter (fun kv => negb (existsb (fun r => Nat.eqb (atom_ptr (Position_Restraint._atom r)) (fst kv)) rs)) l.
Proof.
  revert l. induction rs as [|r rs IH]; intros l; simpl.
  - induction l as [|kv l IHl]; simpl; [reflexivity | f_equal; exact IHl].
  - rewrite IH. unfold alist_erase.
    induction l as [|[k v] l IHl]; simpl; [reflexivity|].
    destruct (Nat.eq_dec (atom_ptr (Position_Restraint._atom r)) k) as [Heq|Hne]; simpl.
    + rewrite (proj2 (Nat.eqb_eq _ _) Heq). simpl. exact IHl.
    + apply Nat.eqb_neq in Hne. rewrite Hne. simpl.
      destruct (existsb _ rs); simpl; rewrite IHl; reflexivity.
Qed.

Lemma pos_delete_restraints_map (m : Position_Restraint_Mgr) (rs : list Position_Restraint.t) :
  pm_atom_to_restraint (pos_delete_restraints m rs)
  = filter (fun kv => negb (existsb (fun r => Nat.eqb (atom_ptr (Position_Restraint._atom r)) (fst kv)) rs))
      (pm_atom_to_restraint m).
Proof. apply fold_erase_filter. Qed.

(** X6: [_new_restraint(atom, target)] on an atom of the model that is
    not a hydrogen allocates a restraint at the next address with the
    given target, spring constant 0 and disabled, reports a target change
    then the creation, and maps the atom to it: an older restraint of the
    same atom is replaced (the count is unchanged), otherwise the count
    grows by one; no other atom's entry changes. *)
Theorem new_restraint_at_result (m : Position_Restraint_Mgr) (atom : Atom) (target : Coord) :
  atom_structure atom = pm_atomic_model m ->
  atom_element_number atom <> 1%nat ->
  exists m',
    pos_new_restraint_at m atom target
      = inl (m', Position_Restraint.mk (pm_next_ptr m) atom target 0 false,
             [track_change (pm_next_ptr m) REASON_TARGET_CHANGED; track_created (pm_next_ptr m)]) /\
    pm_atomic_model m' = pm_atomic_model m /\
    pm_next_ptr m' = S (pm_next_ptr m) /\
    (forall k, alist_find Nat.eq_dec k (pm_atom_to_restraint m')
               = if Nat.eq_dec k (atom_ptr atom)
                 then Some (Position_Restraint.mk (pm_next_ptr m) atom target 0 false)
                 else alist_find Nat.eq_dec k (pm_atom_to_restraint m)) /\
    num_restraints m'
      = num_restraints m
        + match alist_find Nat.eq_dec (atom_ptr atom) (pm_atom_to_restraint m) with
          | Some _ => 0 | None => 1 end.
Proof.
  intros Hs Hh. unfold pos_new_restraint_at.
  rewrite Hs, Nat.eqb_refl. apply Nat.eqb_neq in Hh. rewrite Hh. simpl.
  destruct target as [[x y] z]. simpl.
  eexists. split; [reflexivity|]. simpl.
  split; [reflexivity|]. split; [reflexivity|]. split.
  - intros k. destruct (Nat.eq_dec k (atom_ptr atom)) as [->|Hne].
    + apply alist_find_set_eq.
    + apply alist_find_set_neq. exact Hne.
  - unfold num_restraints. simpl. apply alist_set_length.
Qed.

(** X6 (witness): an oxygen of model 0 in the empty manager. *)
Lemma new_restraint_at_result_witness :
  atom_structure atom_O = pm_atomic_model empty_position_mgr /\
  atom_element_number atom_O <> 1%nat /\
  exists m',
    pos_new_restraint_at empty_position_mgr atom_O (1, 2, 3)%R
      = inl (m', Position_Restraint.mk 20 atom_O (1, 2, 3)%R 0 false,
             [track_change 20 REASON_TARGET_CHANGED; track_created 20]) /\
    pm_atomic_model m' = 0 /\ pm_next_ptr m' = 21 /\
    (forall k, alist_find Nat.eq_dec k (pm_atom_to_restraint m')
               = if Nat.eq_dec k 3
                 then Some (Position_Restraint.mk 20 atom_O (1, 2, 3)%R 0 false)
                 else None) /\
    num_restraints m' = 1.
Proof.
  split; [reflexivity|]. split; [discriminate|].
  destruct (new_restraint_at_result empty_position_mgr atom_O (1, 2, 3)%R eq_refl
              ltac:(discriminate)) as [m' [H1 [H2 [H3 [H4 H5]]]]].
  exists m'. split; [exact H1|]. split; [exact H2|]. split; [exact H3|].
  split; [exact H4 | exact H5].
Defined.

(** X7: once [get_restraint(atom, create)] has returned a restraint
    (found or newly created), asking again for the same atom, with or
    without [create], returns that restraint, leaves the manager as it is
    and reports no change. *)
Theorem get_restraint_again (m m' : Position_Restraint_Mgr) (atom : Atom) (c c' : bool)
    (r : Position_Restraint.t) (log : list Tracked) :
  pos_get_restraint m atom c = inl (m', Some r, log) ->
  pos_get_restraint m' atom c' = inl (m', Some r, []).
Proof.
  unfold pos_get_restraint.
  destruct (alist_find Nat.eq_dec (atom_ptr atom) (pm_atom_to_restraint m)) as [r0|] eqn:Hf.
  - intros H. injection H as <- <- <-. rewrite Hf. reflexivity.
  - destruct c; [|discriminate].
    unfold pos_new_restraint, pos_new_restraint_at.
    destruct (negb (Nat.eqb (atom_structure atom) (pm_atomic_model m))); [discriminate|].
    destruct (Nat.eqb (atom_element_number atom) 1); [discriminate|].
    destruct (Position_Restraint.construct (pm_next_ptr m) atom (atom_coord atom)) as [r1 l1].
    intros H. injection H as <- <- <-. simpl.
    rewrite alist_find_set_eq. reflexivity.
Qed.

(** X7 (witness): creating the oxygen's restraint, then asking again. *)
Lemma get_restraint_again_witness :
  exists m' r log,
    pos_get_restraint empty_position_mgr atom_O true = inl (m', Some r, log) /\
    pos_get_restraint m' atom_O false = inl (m', Some r, []).
Proof.
  eexists; eexists; eexists. split; [reflexivity|].
  eapply (get_restraint_again empty_position_mgr _ atom_O true false).
  reflexivity.
Defined.

(** X8: [get_restraint(atom, true)] creating a restraint puts its target
    on the atom, so its [target_vector] is zero, and leaves the restraints
    [visible_restraints()] returns the same, up to their order (the new
    restraint is disabled; the map's iteration order is not fixed). *)
Theorem get_restraint_created_invisible (m m' : Position_Restraint_Mgr) (atom : Atom)
    (r : Position_Restraint.t) (log : list Tracked) (atom_visible : Atom -> bool) :
  alist_find Nat.eq_dec (atom_ptr atom) (pm_atom_to_restraint m) = None ->
  pos_get_restraint m atom true = inl (m', Some r, log) ->
  target_vector r = (0, 0, 0)%R /\
  Permutation (visible_restraints atom_visible m') (visible_restraints atom_visible m).
Proof.
  intros Hf. unfold pos_get_restraint. rewrite Hf.
  unfold pos_new_restraint, pos_new_restraint_at.
  destruct (negb (Nat.eqb (atom_structure atom) (pm_atomic_model m))); [discriminate|].
  destruct (Nat.eqb (atom_element_number atom) 1); [discriminate|].
  destruct (atom_coord atom) as [[x y] z] eqn:Hc. simpl.
  intros H. injection H as <- <- <-. split.
  - unfold target_vector. simpl. rewrite Hc. f_equal; [f_equal|]; apply Rminus_diag.
  - unfold visible_restraints. simpl.
    rewrite (alist_set_snd_absent _ _ _ _ Hf), filter_app. simpl.
    unfold pos_visible. simpl. rewrite andb_false_r, app_nil_r. apply Permutation_refl.
Qed.

(** X8 (witness): the oxygen's restraint in the empty manager. *)
Lemma get_restraint_created_invisible_witness :
  exists m' r log,
    pos_get_restraint empty_position_mgr atom_O true = inl (m', Some r, log) /\
    target_vector r = (0, 0, 0)%R /\
    Permutation (visible_restraints (fun _ => true) m')
      (visible_restraints (fun _ => true) empty_position_mgr).
Proof.
  eexists; eexists; eexists. split; [reflexivity|].
  eapply (get_restraint_created_invisible empty_position_mgr _ atom_O _ _ (fun _ => true)).
  - reflexivity.
  - reflexivity.
Defined.

(** X9: [delete_restraints(to_delete)] erases by atom: afterwards an atom
    has no restraint if some restraint in [to_delete] sits on it (even one
    no longer in the map), and keeps its entry otherwise; the model and
    the allocator are untouched. *)
Theorem delete_restraints_lookup (m : Position_Restraint_Mgr) (rs : list Position_Restraint.t) (k : nat) :
  alist_find Nat.eq_dec k (pm_atom_to_restraint (pos_delete_restraints m rs))
  = (if existsb (fun r => Nat.eqb (atom_ptr (Position_Restraint._atom r)) k) rs
     then None else alist_find Nat.eq_dec k (pm_atom_to_restraint m)) /\
  pm_atomic_model (pos_delete_restraints m rs) = pm_atomic_model m /\
  pm_next_ptr (pos_delete_restraints m rs) = pm_next_ptr m.
Proof.
  split; [|split; reflexivity].
  rewrite pos_delete_restraints_map.
  apply (alist_find_filter_key
           (fun k => existsb (fun r => Nat.eqb (atom_ptr (Position_Restraint._atom r)) k) rs)).
Qed.

Lemma destroyed_keys_existsb (D : list void_ptr) (l : list (nat * Position_Restraint.t))
    (k : nat) (r0 : Position_Restraint.t) :
  Forall (fun kr => fst kr = atom_ptr (Position_Restraint._atom (snd kr))) l ->
  In (k, r0) l ->
  existsb (fun r => Nat.eqb (atom_ptr (Position_Restraint._atom r)) k)
    (filter (fun r => set_contains D (PAtom (atom_ptr (Position_Restraint._atom r)))) (map snd l))
  = set_contains D (PAtom k).
Proof.
  intros Hw Hin.
  pose proof (proj1 (Forall_forall _ l) Hw (k, r0) Hin) as Hk. simpl in Hk.
  destruct (set_contains D (PAtom k)) eqn:E.
  - apply existsb_exists. exists r0. split.
    + apply filter_In. split.
      * apply in_map_iff. exists (k, r0). auto.
      * rewrite <- Hk. exact E.
    + rewrite <- Hk. apply Nat.eqb_refl.
  - destruct (existsb _ _) eqn:Ex; [|reflexivity].
    apply existsb_exists in Ex as [r [Hr Heq]].
    apply filter_In in Hr as [_ Hc]. apply Nat.eqb_eq in Heq. rewrite Heq in Hc.
    congruence.
Qed.

(** X10: when every key of [_atom_to_restraint] is its restraint's atom
    (as [_new_restraint] keeps it), [destructors_done] drops exactly the
    entries whose atom was destroyed and keeps the others in order; so an
    atom keeps its restraint iff it was not destroyed, and the count falls
    by the number of destroyed restrained atoms. *)
Theorem pos_destructors_done_map (m : Position_Restraint_Mgr) (destroyed : list void_ptr) :
  pos_well_keyed m ->
  pm_atom_to_restraint (pos_destructors_done m destroyed)
  = filter (fun kr => negb (set_contains destroyed (PAtom (fst kr)))) (pm_atom_to_restraint m) /\
  (forall k, alist_find Nat.eq_dec k (pm_atom_to_restraint (pos_destructors_done m destroyed))
             = if set_contains destroyed (PAtom k) then None
               else alist_find Nat.eq_dec k (pm_atom_to_restraint m)).
Proof.
  intros Hw.
  assert (Hm : pm_atom_to_restraint (pos_destructors_done m destroyed)
               = filter (fun kr => negb (set_contains destroyed (PAtom (fst kr))))
                   (pm_atom_to_restraint m)).
  { unfold pos_destructors_done, pos_delete_restraints_impl. simpl.
    rewrite fold_erase_filter. apply filter_ext_in. intros [k r0] Hin.
    simpl. rewrite (destroyed_keys_existsb destroyed _ k r0 Hw Hin). reflexivity. }
  split; [exact Hm|]. intros k. rewrite Hm.
  apply (alist_find_filter_key (fun k => set_contains destroyed (PAtom k))).
Qed.

(** X10 (witness): the oxygen's restraint is dropped when the oxygen is
    destroyed. *)
Lemma pos_destructors_done_map_witness :
  pos_well_keyed sample_position_mgr /\
  pm_atom_to_restraint (pos_destructors_done sample_position_mgr [PAtom 3]) = [] /\
  alist_find Nat.eq_dec 3 (pm_atom_to_restraint (pos_destructors_done sample_position_mgr [PAtom 3]))
  = None.
Proof.
  assert (Hw : pos_well_keyed sample_position_mgr).
  { unfold pos_well_keyed. repeat constructor. }
  split; [exact Hw|].
  destruct (pos_destructors_done_map _ [PAtom 3] Hw) as [H1 H2].
  split; [rewrite H1; reflexivity | rewrite H2; reflexivity].
Defined.

(** X11: the key invariant [pos_well_keyed] holds for the empty map and
    is kept by [get_restraint], [delete_restraints] and
    [destructors_done]. *)
Theorem pos_well_keyed_preserved (m : Position_Restraint_Mgr) :
  pos_well_keyed (mkPosition_Restraint_Mgr (pm_atomic_model m) [] (pm_next_ptr m)) /\
  (pos_well_keyed m ->
   (forall atom c m' o log, pos_get_restraint m atom c = inl (m', o, log) -> pos_well_keyed m') /\
   (forall rs, pos_well_keyed (pos_delete_restraints m rs)) /\
   (forall D, pos_well_keyed (pos_destructors_done m D))).
Proof.
  split; [constructor|]. intros Hw. split; [|split].
  - intros atom c m' o log. unfold pos_get_restraint.
    destruct (alist_find _ _ _); [intros H; injection H as <- _ _; exact Hw|].
    destruct c; [|intros H; injection H as <- _ _; exact Hw].
    unfold pos_new_restraint, pos_new_restraint_at.
    destruct (negb _); [discriminate|]. destruct (Nat.eqb _ 1); [discriminate|].
    destruct (atom_coord atom) as [[x y] z]. simpl.
    intros H. injection H as <- _ _. unfold pos_well_keyed. simpl.
    apply alist_set_Forall; [exact Hw | reflexivity].
  - intros rs. unfold pos_well_keyed. rewrite pos_delete_restraints_map.
    apply Forall_forall. intros kr Hin. apply filter_In in Hin as [Hin _].
    exact (proj1 (Forall_forall _ _) Hw kr Hin).
  - intros D. unfold pos_well_keyed, pos_destructors_done, pos_delete_restraints_impl. simpl.
    rewrite fold_erase_filter.
    apply Forall_forall. intros kr Hin. apply filter_In in Hin as [Hin _].
    exact (proj1 (Forall_forall _ _) Hw kr Hin).
Qed.

(** X11 (witness): the empty manager, then the oxygen's restraint. *)
Lemma pos_well_keyed_preserved_witness :
  pos_well_keyed empty_position_mgr /\
  (forall m' o log, pos_get_restraint empty_position_mgr atom_O true = inl (m', o, log) ->
     pos_well_keyed m').
Proof.
  destruct (pos_well_keyed_preserved empty_position_mgr) as [H0 H1].
  split; [exact H0|].
  exact (proj1 (H1 H0) atom_O true).
Defined.

(* ------------------------------------------------------------------ *)
(** ** Radii, visibility and target wrapping *)

Local Open Scope R_scope.

(** X13: whatever value [set_k] is given, the drawn radius of a position
    or distance restraint afterwards lies between
    [LINEAR_RESTRAINT_MIN_RADIUS] and [LINEAR_RESTRAINT_MAX_RADIUS]; a
    spring constant of 0 gives the minimum radius. *)
Theorem radius_bounds_after_set_k (p : Position_Restraint.t) (d : Distance_Restraint.t) (k : R) :
  LINEAR_RESTRAINT_MIN_RADIUS <= Position_Restraint.radius (fst (Position_Restraint.set_k p k))
    <= LINEAR_RESTRAINT_MAX_RADIUS /\
  LINEAR_RESTRAINT_MIN_RADIUS <= Distance_Restraint.radius (fst (Distance_Restraint.set_k d k))
    <= LINEAR_RESTRAINT_MAX_RADIUS /\
  (k <= 0 -> Position_Restraint.radius (fst (Position_Restraint.set_k p k)) = LINEAR_RESTRAINT_MIN_RADIUS
            /\ Distance_Restraint.radius (fst (Distance_Restraint.set_k d k)) = LINEAR_RESTRAINT_MIN_RADIUS).
Proof.
  pose proof (clamp_k_bounds k) as Hb.
  assert (Hq : 0 <= clamp_k k / MAX_LINEAR_SPRING_CONSTANT <= 1).
  { unfold MAX_LINEAR_SPRING_CONSTANT in *. split.
    - apply Rmult_le_pos; [lra | left; apply Rinv_0_lt_compat; lra].
    - apply (Rmult_le_reg_r 100000); [lra|]. unfold Rdiv. rewrite Rmult_assoc, Rinv_l; lra. }
  assert (Hs : 0 <= sqrt (clamp_k k / MAX_LINEAR_SPRING_CONSTANT) <= 1).
  { split; [apply sqrt_pos|]. rewrite <- sqrt_1. apply sqrt_le_1; lra. }
  assert (H0 : k <= 0 -> clamp_k k = 0).
  { intros Hk. unfold clamp_k. destruct (Rlt_dec k 0); [reflexivity|].
    unfold MAX_LINEAR_SPRING_CONSTANT. destruct (Rlt_dec 100000 k); lra. }
  unfold Position_Restraint.radius, Distance_Restraint.radius,
    LINEAR_RESTRAINT_MIN_RADIUS, LINEAR_RESTRAINT_MAX_RADIUS; simpl.
  split; [|split].
  - set (q := clamp_k k / MAX_LINEAR_SPRING_CONSTANT) in *. nra.
  - set (q := sqrt (clamp_k k / MAX_LINEAR_SPRING_CONSTANT)) in *. nra.
  - intros Hk. rewrite (H0 Hk). unfold Rdiv. rewrite Rmult_0_l, sqrt_0. lra.
Qed.

(** X13 (witness): a negative spring constant gives the minimum radius. *)
Lemma radius_bounds_after_set_k_witness :
  Position_Restraint.radius (fst (Position_Restraint.set_k sample_position_restraint (-5)))
    = LINEAR_RESTRAINT_MIN_RADIUS /\
  Distance_Restraint.radius (fst (Distance_Restraint.set_k sample_distance_restraint (-5)))
    = LINEAR_RESTRAINT_MIN_RADIUS.
Proof.
  apply (proj2 (proj2 (radius_bounds_after_set_k sample_position_restraint
                         sample_distance_restraint (-5)))).
  lra.
Defined.

(** X14: after [set_enabled(flag)] a position restraint is visible iff
    its atom is visible and [flag] holds, and a distance restraint iff
    both its atoms are visible and [flag] holds; in particular
    [set_enabled(false)] hides either kind. *)
Theorem visible_after_set_enabled (atom_visible : Atom -> bool)
    (p : Position_Restraint.t) (d : Distance_Restraint.t) (flag : bool) :
  pos_visible atom_visible (fst (Position_Restraint.set_enabled p flag))
  = atom_visible (Position_Restraint._atom p) && flag /\
  dist_visible atom_visible (fst (Distance_Restraint.set_enabled d flag))
  = atom_visible (fst (Distance_Restraint._atoms d))
    && atom_visible (snd (Distance_Restraint._atoms d)) && flag.
Proof.
  split.
  - unfold Position_Restraint.set_enabled, pos_visible.
    destruct (Position_Restraint._enabled p) eqn:E; destruct flag; simpl;
      try rewrite E; reflexivity.
  - unfold Distance_Restraint.set_enabled, dist_visible.
    destruct (Distance_Restraint._enabled d) eqn:E; destruct flag; simpl;
      try rewrite E; reflexivity.
Qed.

Lemma round_half_even_small (z : R) : - (1 / 2) <= z <= 1 / 2 -> round_half_even z = 0%Z.
Proof.
  intros [Hlo Hhi]. unfold round_half_even.
  destruct (Rlt_dec z 0) as [Hn|Hn].
  - assert (Hu : up z = 0%Z) by (symmetry; apply tech_up; simpl; lra).
    rewrite Hu. simpl.
    destruct (Rlt_dec (z - -1) (1 / 2)); [lra|].
    destruct (Rlt_dec (1 / 2) (z - -1)); reflexivity.
  - assert (Hu : up z = 1%Z) by (symmetry; apply tech_up; simpl; lra).
    rewrite Hu. simpl.
    destruct (Rlt_dec (z - 0) (1 / 2)); [reflexivity|].
    destruct (Rlt_dec (1 / 2) (z - 0)); [lra | reflexivity].
Qed.

(** X16: [Dihedral::set_target] leaves an angle in [[-pi, pi]] as it is,
    so setting a dihedral's target to its current [target()] changes
    nothing. *)
Theorem dihedral_set_target_fixed (d : Dihedral_angles) (val : R) :
  (- PI <= val <= PI -> dihedral_target (dihedral_set_target d val) = val) /\
  dihedral_set_target (dihedral_set_target d val) (dihedral_target (dihedral_set_target d val))
  = dihedral_set_target d val.
Proof.
  assert (Hfix : forall x, - PI <= x <= PI -> remainder x TWO_PI = x).
  { intros x Hx. pose proof PI_RGT_0 as Hpi. unfold remainder.
    rewrite (round_half_even_small (x / TWO_PI)); [simpl; lra|].
    unfold TWO_PI. split.
    - apply (Rmult_le_reg_r (2 * PI)); [lra|].
      unfold Rdiv. rewrite Rmult_assoc, Rinv_l; lra.
    - apply (Rmult_le_reg_r (2 * PI)); [lra|].
      unfold Rdiv. rewrite Rmult_assoc, Rinv_l; lra. }
  split.
  - intros H. unfold dihedral_target, dihedral_set_target. simpl. apply Hfix. exact H.
  - unfold dihedral_target, dihedral_set_target. simpl. f_equal. apply Hfix.
    pose proof (remainder_bounds val TWO_PI TWO_PI_pos) as Hb. unfold TWO_PI in *. lra.
Qed.

(** X16 (witness): the angle 1 is kept. *)
Lemma dihedral_set_target_fixed_witness :
  dihedral_target (dihedral_set_target sample_dihedral_angles 1) = 1.
Proof.
  apply (proj1 (dihedral_set_target_fixed sample_dihedral_angles 1)).
  pose proof PI2_1 as H1. split; lra.
Defined.
